(** * gopherdl: a shallow embedding of [gopherdl.py]

    The development follows the layout of the program:

    - [PyStr]: the [str] methods and the [int] constructor it calls;
    - [PosixPath]: the functions of [os.path] it calls;
    - [GopherURL]: the resource class with its validator and its
      derived paths;
    - [getlinks]: the menu parser;
    - the world: options, network, file store and log;
    - [download], [write_gopherurl] and [crawl];
    - the vocabulary of the properties and some concrete worlds;
    - the properties.

    Modelling choices.  Characters are [ascii], read as the code points
    below 256.  An exception is a value of [exn] carried by [result].
    What the program asks of its environment (working directory,
    network, codec, string hash, iteration order of sets) is a field of
    [env].  Effects thread a [world]: a clock of connection attempts,
    the file store and the log.  Loops that have no structural bound
    take fuel and return [None] when it runs out.  A connection attempt
    is one step with an outcome, bytes or an error: its receive loop is
    not unfolded, and a peer that never closes is outside the model. *)

From Stdlib Require Import String Ascii List ZArith QArith Bool Lia Arith.
From Stdlib Require Import Permutation.
Import ListNotations.

Local Close Scope Q_scope.
Local Open Scope nat_scope.
Local Open Scope list_scope.
Local Open Scope string_scope.

(* ================================================================= *)
(** ** Exceptions *)

(** The exception classes the program raises, catches or lets through.
    [OSError] stands for every socket or file error outside the three
    that [download] retries; [OverflowError] is what [time.sleep]
    raises on a delay too large for the clock. *)
Inductive exn : Type :=
  | IndexError
  | ValueError
  | GaiError
  | TimeoutError
  | ConnectionRefusedError
  | OSError
  | OverflowError.

Inductive result (A : Type) : Type :=
  | Ok (a : A)
  | Raise (e : exn).

Arguments Ok {A} a.
Arguments Raise {A} e.

Definition bind {A B : Type} (r : result A) (k : A -> result B) : result B :=
  match r with
  | Ok a => k a
  | Raise e => Raise e
  end.

Notation "x <- r ;; k" := (bind r (fun x => k))
  (at level 61, r at next level, right associativity).

(* ================================================================= *)
(** ** Python strings *)

Module PyStr.

Definition chr (n : nat) : ascii := ascii_of_nat n.

(** [str.isspace] on the code points below 256: what [str.strip()]
    removes. *)
Definition is_space (c : ascii) : bool :=
  let n := nat_of_ascii c in
  (((9 <=? n) && (n <=? 13)) || ((28 <=? n) && (n <=? 32))
   || (n =? 133) || (n =? 160))%nat.

Definition is_slash (c : ascii) : bool := Ascii.eqb c "/".

Fixpoint lstrip (p : ascii -> bool) (s : string) : string :=
  match s with
  | EmptyString => EmptyString
  | String c s' => if p c then lstrip p s' else s
  end.

Fixpoint rstrip (p : ascii -> bool) (s : string) : string :=
  match s with
  | EmptyString => EmptyString
  | String c s' =>
      match rstrip p s' with
      | EmptyString => if p c then EmptyString else String c EmptyString
      | r => String c r
      end
  end.

(** [s.strip()] is [strip is_space s]; [s.strip("/")] is
    [strip is_slash s]. *)
Definition strip (p : ascii -> bool) (s : string) : string :=
  rstrip p (lstrip p s).

(** [s.split(sep)] for a one-character separator: never an empty list. *)
Fixpoint split (sep : ascii) (s : string) : list string :=
  match s with
  | EmptyString => [EmptyString]
  | String c s' =>
      if Ascii.eqb c sep then EmptyString :: split sep s'
      else match split sep s' with
           | [] => [String c EmptyString]
           | w :: ws => String c w :: ws
           end
  end.

(** [sep.join(l)]. *)
Fixpoint join (sep : string) (l : list string) : string :=
  match l with
  | [] => EmptyString
  | [x] => x
  | x :: rest => x ++ sep ++ join sep rest
  end.

Definition startswith (s p : string) : bool := String.prefix p s.

Fixpoint endswith_char (s : string) (c : ascii) : bool :=
  match s with
  | EmptyString => false
  | String d EmptyString => Ascii.eqb d c
  | String _ s' => endswith_char s' c
  end.

(** [sub in s]. *)
Fixpoint contains (sub s : string) : bool :=
  String.prefix sub s ||
  match s with
  | EmptyString => false
  | String _ s' => contains sub s'
  end.

Definition is_empty (s : string) : bool :=
  match s with EmptyString => true | _ => false end.

(** [l[i]], raising [IndexError] out of range. *)
Definition index {A : Type} (l : list A) (i : nat) : result A :=
  match nth_error l i with
  | Some a => Ok a
  | None => Raise IndexError
  end.

(** [s[0]] as a one-character string. *)
Definition first_char (s : string) : result string :=
  match s with
  | EmptyString => Raise IndexError
  | String c _ => Ok (String c EmptyString)
  end.

(** [s[1:]]. *)
Definition tail (s : string) : string :=
  match s with
  | EmptyString => EmptyString
  | String _ s' => s'
  end.

Definition is_digit (c : ascii) : bool :=
  let n := nat_of_ascii c in ((48 <=? n) && (n <=? 57))%nat.

Definition digit_val (c : ascii) : Z := Z.of_nat (nat_of_ascii c) - 48.

(** The digits of a decimal literal, most significant first; an
    underscore is allowed between two digits only.  [prev] tells
    whether the previous character was a digit. *)
Fixpoint digits (prev : bool) (s : string) : option (list Z) :=
  match s with
  | EmptyString => if prev then Some [] else None
  | String c s' =>
      if is_digit c then
        match digits true s' with
        | Some ds => Some (digit_val c :: ds)
        | None => None
        end
      else if Ascii.eqb c "_" then
        if prev then
          match s' with
          | String d _ => if is_digit d then digits false s' else None
          | EmptyString => None
          end
        else None
      else None
  end.

Definition int_max_str_digits : nat := 4300.

Definition value_of (ds : list Z) : Z :=
  fold_left (fun acc d => 10 * acc + d)%Z ds 0%Z.

(** [int(s)] for a [str] with no surrounding white space (the program
    strips its argument first): an optional sign, then a decimal
    literal of at most [int_max_str_digits] digits. *)
Definition int (s : string) : result Z :=
  let '(neg, body) :=
    match s with
    | String "-" r => (true, r)
    | String "+" r => (false, r)
    | _ => (false, s)
    end in
  match body with
  | EmptyString => Raise ValueError
  | String c _ =>
      if is_digit c then
        match digits false body with
        | Some ds =>
            if (int_max_str_digits <? List.length ds)%nat then Raise ValueError
            else Ok (if neg then - value_of ds else value_of ds)%Z
        | None => Raise ValueError
        end
      else Raise ValueError
  end.

End PyStr.

(* ================================================================= *)
(** ** [os.path] on POSIX *)

Module PosixPath.
Import PyStr.

Definition sep : string := "/".

Definition isabs (p : string) : bool := startswith p sep.

(** One step of [os.path.join]: [path] joined with the next part [b]. *)
Definition join2 (path b : string) : string :=
  if startswith b sep then b
  else if is_empty path || endswith_char path "/" then path ++ b
  else path ++ sep ++ b.

(** [os.path.join(a, *p)]. *)
Definition join (a : string) (p : list string) : string :=
  fold_left join2 p a.

Definition is_nil {A : Type} (l : list A) : bool :=
  match l with [] => true | _ => false end.

(** The loop of [normpath] over the components: [new_comps] is kept
    reversed, its head being the last component appended. *)
Fixpoint normpath_loop (initial_slashes : nat) (comps : list string)
         (new_comps : list string) : list string :=
  match comps with
  | [] => rev new_comps
  | comp :: rest =>
      if String.eqb comp "" || String.eqb comp "." then
        normpath_loop initial_slashes rest new_comps
      else if negb (String.eqb comp "..")
              || ((initial_slashes =? 0)%nat && is_nil new_comps)
              || match new_comps with
                 | last :: _ => String.eqb last ".."
                 | [] => false
                 end
      then normpath_loop initial_slashes rest (comp :: new_comps)
      else match new_comps with
           | _ :: popped => normpath_loop initial_slashes rest popped
           | [] => normpath_loop initial_slashes rest new_comps
           end
  end.

Fixpoint repeat_sep (n : nat) : string :=
  match n with
  | O => EmptyString
  | S k => sep ++ repeat_sep k
  end.

Definition or_dot (p : string) : string :=
  if is_empty p then "." else p.

(** [os.path.normpath]. One or two leading slashes are kept as they
    are, three or more count as one. *)
Definition normpath (path : string) : string :=
  if is_empty path then "."
  else
    let initial_slashes :=
      if startswith path sep then
        if startswith path "//" && negb (startswith path "///") then 2%nat
        else 1%nat
      else 0%nat in
    let comps := normpath_loop initial_slashes (split "/" path) [] in
    or_dot (repeat_sep initial_slashes ++ PyStr.join sep comps).

(** [os.path.abspath], with the working directory passed in. *)
Definition abspath (cwd path : string) : string :=
  normpath (if isabs path then path else join cwd [path]).

(** The common leading part of two component lists, as
    [commonprefix([a, b])] returns it. *)
Fixpoint commonprefix (a b : list string) : list string :=
  match a, b with
  | x :: a', y :: b' => if String.eqb x y then x :: commonprefix a' b' else []
  | _, _ => []
  end.

Definition nonempty_parts (p : string) : list string :=
  filter (fun x => negb (is_empty x)) (split "/" p).

(** [os.path.relpath(path)]: relative to the working directory. *)
Definition relpath (cwd path : string) : result string :=
  if is_empty path then Raise ValueError
  else
    let start_list := nonempty_parts (abspath cwd ".") in
    let path_list := nonempty_parts (abspath cwd path) in
    let i := List.length (commonprefix start_list path_list) in
    let rel_list :=
      (repeat ".." (List.length start_list - i) ++ skipn i path_list)%list in
    match rel_list with
    | [] => Ok "."
    | a :: p => Ok (join a p)
    end.

(** The index just after the last separator of [p] ([p.rfind(sep) + 1]),
    computed as the head of [p] up to and including that separator. *)
Fixpoint head_to_last_sep (p : string) : string :=
  match p with
  | EmptyString => EmptyString
  | String c p' =>
      if contains sep p then String c (head_to_last_sep p')
      else EmptyString
  end.

Definition all_sep (s : string) : bool := is_empty (lstrip is_slash s).

(** [os.path.dirname]. *)
Definition dirname (p : string) : string :=
  let head := head_to_last_sep p in
  if negb (is_empty head) && negb (all_sep head) then rstrip is_slash head
  else head.

End PosixPath.

(* ================================================================= *)
(** ** The resource class *)

Record GopherURL : Type := mkGopherURL {
  type : string;
  text : string;
  path : string;
  host : string;
  port : Z
}.

Module GopherURL.
Import PyStr.

Definition invalid_types : list string :=
  [ "7"   (* Search service *)
  ; "2"   (* CSO *)
  ; "3"   (* Error *)
  ; "8"
  ; "T" ] (* telnet *).

Definition __eq__ (self other : GopherURL) : bool :=
  let samehost := String.eqb (host self) (host other) in
  let samepath := String.eqb (path self) (path other) in
  samehost && samepath.

Definition is_menu (self : GopherURL) : bool :=
  String.eqb (type self) "1".

(** path without adding gophermap *)
Definition to_url_path (self : GopherURL) : string :=
  let path := split "/" (strip is_slash (path self)) in
  let outfile := PosixPath.join (host self) [PyStr.join PosixPath.sep path] in
  outfile.

Definition to_file_path (self : GopherURL) : string :=
  let outfile := to_url_path self in
  if is_menu self then PosixPath.join outfile ["gophermap"] else outfile.

(** [hash(self.to_file_path())]; [str_hash] is the interpreter's hash
    of a [str]. *)
Definition __hash__ (str_hash : string -> Z) (self : GopherURL) : Z :=
  str_hash (to_file_path self).

(** [self.type in GopherURL.invalid_types]. *)
Definition type_is_invalid (self : GopherURL) : bool :=
  existsb (String.eqb (type self)) invalid_types.

(** [valid] reads the working directory through [os.path.relpath],
    which raises [ValueError] on an empty path. *)
Definition valid (cwd : string) (self : GopherURL) : result bool :=
  if (String.length (path self) =? 0)%nat then Ok false
  else if (port self <=? 0)%Z then Ok false
  else if type_is_invalid self then Ok false
  else if contains "URL:" (path self) then Ok false
  else
    (* If the path contains enough "../", it would be saved outside
       our download directory, which is a security risk. *)
    file_path <- PosixPath.relpath cwd (to_file_path self) ;;
    let in_download_dir := startswith file_path (host self) in
    if negb in_download_dir then Ok false
    else Ok true.

(** As it would look in a browser urlbar: [urlunparse] of
    [("gopher", host, path, query, "", "")], the query standing in the
    parameter slot. *)
Definition to_url (self : GopherURL) : string :=
  let path_parts := split "?" (path self) in
  let '(path, query) :=
    match path_parts with
    | [_] => (path self, EmptyString)
    | p0 :: rest => (p0, PyStr.join "?" rest)
    | [] => (path self, EmptyString)
    end in
  let url : string := if is_empty query then path else path ++ ";" ++ query in
  let url : string :=
    if negb (is_empty (host self)) || negb (String.eqb (substring 0 2 url) "//")
    then
      let url : string :=
        if negb (is_empty url) && negb (String.eqb (substring 0 1 url) "/")
        then "/" ++ url else url in
      "//" ++ host self ++ url
    else url in
  ("gopher:" ++ url)%string.

End GopherURL.

Definition get_menus (gurls : list GopherURL) : list GopherURL :=
  filter GopherURL.is_menu gurls.

Definition get_files (gurls : list GopherURL) : list GopherURL :=
  filter (fun g => negb (GopherURL.is_menu g)) gurls.

(* ================================================================= *)
(** ** The menu parser *)

Definition tab : ascii := "009".
Definition newline : ascii := "010".

(** The body of the [try] block of [getlinks] for one line: [Ok None]
    is a [continue] (informational or invalid line), [Ok (Some url)] an
    appended resource. *)
Definition getlinks_line (cwd line : string) : result (option GopherURL) :=
  let tokens := PyStr.split tab (PyStr.strip PyStr.is_space line) in
  tok0 <- PyStr.index tokens 0 ;;
  typ <- PyStr.first_char tok0 ;;
  if String.eqb typ "i" then Ok None
  else
    let text := PyStr.tail tok0 in
    tok1 <- PyStr.index tokens 1 ;;
    let path := PyStr.strip PyStr.is_space tok1 in
    tok2 <- PyStr.index tokens 2 ;;
    let host := PyStr.strip PyStr.is_space tok2 in
    tok3 <- PyStr.index tokens 3 ;;
    port <- PyStr.int (PyStr.strip PyStr.is_space tok3) ;;
    let url := mkGopherURL typ text path host port in
    v <- GopherURL.valid cwd url ;;
    if negb v then Ok None
    else Ok (Some url).

(** The [for] loop of [getlinks]: [IndexError] and [ValueError] are
    caught per line, anything else would leave the function. *)
Fixpoint getlinks_loop (cwd : string) (lines : list string)
         (urls : list GopherURL) : result (list GopherURL) :=
  match lines with
  | [] => Ok urls
  | line :: rest =>
      match getlinks_line cwd line with
      | Ok (Some url) => getlinks_loop cwd rest (urls ++ [url])%list
      | Ok None => getlinks_loop cwd rest urls
      | Raise IndexError => getlinks_loop cwd rest urls
      | Raise ValueError => getlinks_loop cwd rest urls
      | Raise e => Raise e
      end
  end.

(** Extract urls from a gopher menu.  The [config] argument of the
    source is not read and is left out. *)
Definition getlinks (cwd menucontent : string) : result (list GopherURL) :=
  getlinks_loop cwd (PyStr.split newline menucontent) [].

(* ================================================================= *)
(** ** The world: configuration, network, file store, log *)

(** The arithmetic of the delay, a Python [float]: the operations the
    retry policy applies, whether [time.sleep] accepts the value, and
    what it raises on a value it refuses ([OverflowError] on one too
    large in magnitude for the clock, [ValueError] on a negative one
    or on a NaN). *)
Class PyFloat (F : Type) : Type := {
  fadd : F -> F -> F;
  fdiv : F -> F -> F;
  of_int : Z -> F;
  fne : F -> F -> bool;
  sleep_ok : F -> bool;
  sleep_exn : F -> exn
}.

(** The options the core reads. [maxdepth = None] is [math.inf]; a
    compiled pattern is its [fullmatch] predicate. *)
Record Config (F : Type) : Type := mkConfig {
  recursive : bool;
  maxdepth : option Z;
  spanhosts : bool;
  clobber : bool;
  only_save_menu : bool;
  no_save_menu : bool;
  ascend_parents : bool;
  delay : F;
  accept_regex : option (string -> bool);
  reject_regex : option (string -> bool);
  regex_on_menus : bool;
  archive_directory : string
}.

Arguments mkConfig {F}.
Arguments recursive {F}.
Arguments maxdepth {F}.
Arguments spanhosts {F}.
Arguments clobber {F}.
Arguments only_save_menu {F}.
Arguments no_save_menu {F}.
Arguments ascend_parents {F}.
Arguments delay {F}.
Arguments accept_regex {F}.
Arguments reject_regex {F}.
Arguments regex_on_menus {F}.
Arguments archive_directory {F}.

(** What one connection attempt (connect, send, receive until the peer
    closes) comes to. *)
Inductive outcome : Type :=
  | Received (buffer : string)
  | Failed (e : exn).

(** What the program does not decide: the working directory, the
    answer of the network to the n-th connection attempt, the codec,
    the interpreter's string hash and the order in which it iterates
    over the n-th set it walks. *)
Record env : Type := mkEnv {
  cwd : string;
  net : nat -> string -> Z -> string -> outcome;
  decode : string -> string;
  str_hash : string -> Z;
  iter_order : nat -> list GopherURL -> list GopherURL
}.

(** The iteration of a set yields its elements, each once. *)
Definition env_ok (E : env) : Prop :=
  forall n l, Permutation (iter_order E n l) l.

Inductive node : Type :=
  | File (content : string)
  | Dir.

(** Files and directories by their absolute component lists; the root
    directory [[]] is always there. The first binding of a key counts. *)
Definition filesystem : Type := list (list string * node).

Fixpoint assoc (k : list string) (fs : filesystem) : option node :=
  match fs with
  | [] => None
  | (k', v) :: rest =>
      if list_eq_dec string_dec k k' then Some v else assoc k rest
  end.

Definition fs_lookup (fs : filesystem) (k : list string) : option node :=
  match k with
  | [] => Some Dir
  | _ => assoc k fs
  end.

(** The records of the run: the sleeps and connection attempts of
    [download], the local reads, and the CALL and EXIT records the
    [log] decorator writes around [gopher_urls_from_menu_link]. *)
Inductive event (F : Type) : Type :=
  | EvSleep (d : F)
  | EvConnect (h : string) (p : Z) (selector : string)
  | EvSlurp (file : string)
  | EvCall (menu : GopherURL)
  | EvExit (menu : GopherURL) (gurls : list GopherURL).

Arguments EvSleep {F} d.
Arguments EvConnect {F} h p selector.
Arguments EvSlurp {F} file.
Arguments EvCall {F} menu.
Arguments EvExit {F} menu gurls.

Record world (F : Type) : Type := mkWorld {
  clock : nat;
  fs : filesystem;
  trace : list (event F)
}.

Arguments mkWorld {F}.
Arguments clock {F}.
Arguments fs {F}.
Arguments trace {F}.

(** A computation on the world that may raise, or run out of fuel
    ([None]). *)
Definition M (F A : Type) : Type := world F -> option (result A * world F).

Definition ret {F A : Type} (a : A) : M F A := fun w => Some (Ok a, w).

Definition throw {F A : Type} (e : exn) : M F A := fun w => Some (Raise e, w).

Definition mbind {F A B : Type} (m : M F A) (k : A -> M F B) : M F B :=
  fun w =>
    match m w with
    | None => None
    | Some (Raise e, w') => Some (Raise e, w')
    | Some (Ok a, w') => k a w'
    end.

Notation "x <~ m ;; k" := (mbind m (fun x => k))
  (at level 61, m at next level, right associativity).

Definition emit {F : Type} (ev : event F) : M F unit :=
  fun w => Some (Ok tt, mkWorld (clock w) (fs w) (trace w ++ [ev])%list).

Definition lift {F A : Type} (r : result A) : M F A :=
  fun w => Some (r, w).

(* ================================================================= *)
(** ** The file store *)

Section FileStore.
Variable E : env.

Definition cwd_parts : list string := PosixPath.nonempty_parts (cwd E).

(** Walking a path component by component: every directory stepped
    through has to be one. *)
Fixpoint walk (fs : filesystem) (cur comps : list string)
  : option (list string) :=
  match comps with
  | [] => Some cur
  | c :: rest =>
      match fs_lookup fs cur with
      | Some Dir =>
          if String.eqb c "" || String.eqb c "." then walk fs cur rest
          else if String.eqb c ".." then walk fs (removelast cur) rest
          else walk fs (cur ++ [c])%list rest
      | _ => None
      end
  end.

Definition resolve (fs : filesystem) (p : string) : option (list string) :=
  if PyStr.is_empty p then None
  else walk fs (if PosixPath.isabs p then [] else cwd_parts)
            (PyStr.split "/" p).

(** [os.path.exists]. *)
Definition exists_ (fs : filesystem) (p : string) : bool :=
  match resolve fs p with
  | Some k => match fs_lookup fs k with Some _ => true | None => false end
  | None => false
  end.

(** [open(path, "rb").read()]. *)
Definition slurp (fs : filesystem) (p : string) : result string :=
  match resolve fs p with
  | Some k =>
      match fs_lookup fs k with
      | Some (File content) => Ok content
      | _ => Raise OSError
      end
  | None => Raise OSError
  end.

(** [os.mkdir]. *)
Definition mkdir (fs : filesystem) (p : string) : result filesystem :=
  match resolve fs p with
  | Some k =>
      match fs_lookup fs k with
      | None => Ok ((k, Dir) :: fs)
      | Some _ => Raise OSError
      end
  | None => Raise OSError
  end.

(** [open(path, "wb").write(content)]. *)
Definition write_file (fs : filesystem) (p content : string)
  : result filesystem :=
  match resolve fs p with
  | Some k =>
      match fs_lookup fs k with
      | Some Dir => Raise OSError
      | _ => Ok ((k, File content) :: fs)
      end
  | None => Raise OSError
  end.

(** The loop of [mkdirs], with the store as it is when the loop ends:
    the directories made before an [os.mkdir] that raises stay. *)
Fixpoint mkdirs_loop (fs : filesystem) (cd : string) (parts : list string)
  : result unit * filesystem :=
  match parts with
  | [] => (Ok tt, fs)
  | p :: rest =>
      let cd := PosixPath.join cd [p] in
      if negb (exists_ fs cd) then
        match mkdir fs cd with
        | Ok fs' => mkdirs_loop fs' cd rest
        | Raise e => (Raise e, fs)
        end
      else mkdirs_loop fs cd rest
  end.

Definition mkdirs (fs : filesystem) (path : string)
  : result unit * filesystem :=
  mkdirs_loop fs EmptyString (PyStr.split "/" path).

End FileStore.

(* ================================================================= *)
(** ** The fetch primitive, the persistence step and the traversal *)

Section Program.
Context {F : Type} {PF : PyFloat F}.
Variable E : env.

Definition is_retried (e : exn) : bool :=
  match e with
  | GaiError | TimeoutError | ConnectionRefusedError => true
  | _ => false
  end.

(** [delay + delay / 4 if delay != 0 else 1]. *)
Definition backoff (delay : F) : F :=
  if fne delay (of_int 0) then fadd delay (fdiv delay (of_int 4))
  else of_int 1.

(** [time.sleep(delay)]. *)
Definition sleep (delay : F) : M F unit :=
  if sleep_ok delay then emit (EvSleep delay) else throw (sleep_exn delay).

(** One pass through the [try] block: the world answers the attempt
    and the clock of attempts advances.  The receive loop is not
    unfolded: an attempt is taken to end, with the bytes received when
    the peer closes or with the error raised on the way; a peer that
    sends for ever is outside this model. *)
Definition attempt (self : GopherURL) : world F -> outcome * world F :=
  fun w =>
    (net E (clock w) (host self) (port self) (path self),
     mkWorld (S (clock w)) (fs w)
             (trace w ++ [EvConnect (host self) (port self) (path self)])%list).

(** The [while True] loop of [download]; falling out of it by [break]
    returns [None]. *)
Fixpoint download_loop (self : GopherURL) (fuel retries : nat) (delay : F)
  : M F (option string) :=
  match fuel with
  | O => fun _ => None
  | S fuel' =>
      _ <~ sleep delay ;;
      fun w =>
        let '(out, w') := attempt self w in
        match out with
        | Received buffer => Some (Ok (Some buffer), w')
        | Failed e =>
            if is_retried e then
              let retries := S retries in
              if (3 <? retries)%nat then Some (Ok None, w')
              else download_loop self fuel' retries (backoff delay) w'
            else Some (Raise e, w')
        end
  end.

Definition download (self : GopherURL) (delay : F) : M F (option string) :=
  download_loop self 4 0 delay.

Variable config : Config F.

(** [write_gopherurl(gurl, config, content)]; [content = None] is the
    default argument. *)
Definition write_gopherurl (gurl : GopherURL) (content : option string)
  : M F unit :=
  fun w =>
    let outfile :=
      PosixPath.join (archive_directory config) [GopherURL.to_file_path gurl] in
    (* If it exists and config says no clobber, leave *)
    if exists_ E (fs w) outfile && negb (clobber config) then Some (Ok tt, w)
    else
      let '(made, fs1) := mkdirs E (fs w) (PosixPath.dirname outfile) in
      let w1 := mkWorld (clock w) fs1 (trace w) in
      match made with
      | Raise e => Some (Raise e, w1)
      | Ok _ =>
          (content <~ match content with
                      | Some c => ret (Some c)
                      | None => download gurl (delay config)
                      end ;;
           fun w2 =>
             match content with
             | Some (String c rest) =>
                 match write_file E (fs w2) outfile (String c rest) with
                 | Ok fs3 => Some (Ok tt, mkWorld (clock w2) fs3 (trace w2))
                 | Raise e => Some (Raise e, w2)
                 end
             | _ => Some (Ok tt, w2)
             end) w1
      end.

(** *** crawl *)

Variable root_gurl : GopherURL.

Definition gurl_ok_by_config (link : GopherURL) : bool :=
  let on_different_host := negb (String.eqb (host root_gurl) (host link)) in
  if negb (spanhosts config) && on_different_host then false
  else
    let off_original_path :=
      negb (PyStr.startswith (path link) (path root_gurl)) in
    if negb (ascend_parents config) && off_original_path then false
    else
      (* If the link is a menu AND we don't apply regex on menus, return *)
      if negb (regex_on_menus config) && GopherURL.is_menu link then true
      else
        (* Filter by regular expressions *)
        let url := GopherURL.to_url link in
        let rejected :=
          match reject_regex config with
          | Some fullmatch => fullmatch url
          | None => false
          end in
        if rejected then false
        else
          match accept_regex config with
          | Some fullmatch => if fullmatch url then true else false
          | None => true
          end.

(** The handler of [retrieve_menu_content] catches [socket.gaierror]
    and [TimeoutError] only. *)
Definition caught_by_retrieve (e : exn) : bool :=
  match e with
  | GaiError | TimeoutError => true
  | _ => false
  end.

Definition retrieve_menu_content (gurl : GopherURL) : M F (option string) :=
  fun w =>
    let path := GopherURL.to_file_path gurl in
    if exists_ E (fs w) path && negb (clobber config) then
      let w1 := mkWorld (clock w) (fs w) (trace w ++ [EvSlurp path])%list in
      match slurp E (fs w) path with
      | Ok content => Some (Ok (Some (decode E content)), w1)
      | Raise e => Some (Raise e, w1)
      end
    else
      match download gurl (delay config) w with
      | None => None
      | Some (Raise e, w1) =>
          if caught_by_retrieve e then Some (Ok None, w1)
          else Some (Raise e, w1)
      | Some (Ok (Some content), w1) => Some (Ok (Some (decode E content)), w1)
      | Some (Ok None, w1) => Some (Ok None, w1)
      end.

Definition gopher_urls_from_menu_link (menu_gurl : GopherURL)
  : M F (list GopherURL) :=
  _ <~ emit (EvCall menu_gurl) ;;
  menu_content <~ retrieve_menu_content menu_gurl ;;
  gurls <~ match menu_content with
           | None => ret []
           | Some menu_content =>
               gurls <~ lift (getlinks (cwd E) menu_content) ;;
               ret (filter gurl_ok_by_config gurls)
           end ;;
  _ <~ emit (EvExit menu_gurl gurls) ;;
  ret gurls.

(** *** Python sets of resources

    A set is kept as the list of its elements in insertion order.
    Two objects are the same element when their hashes agree and
    [__eq__] holds. *)

Definition same_elem (a b : GopherURL) : bool :=
  (GopherURL.__hash__ (str_hash E) a =? GopherURL.__hash__ (str_hash E) b)%Z
  && GopherURL.__eq__ a b.

Definition set_mem (x : GopherURL) (s : list GopherURL) : bool :=
  existsb (same_elem x) s.

Definition set_add (s : list GopherURL) (x : GopherURL) : list GopherURL :=
  if set_mem x s then s else (s ++ [x])%list.

(** [s.update(l)]. *)
Definition set_update (s l : list GopherURL) : list GopherURL :=
  fold_left set_add l s.

(** [set(l)]. *)
Definition set_of (l : list GopherURL) : list GopherURL :=
  set_update [] l.

(** [a.difference(b)]. *)
Definition set_difference (a b : list GopherURL) : list GopherURL :=
  filter (fun x => negb (set_mem x b)) a.

(** [depth > config.maxdepth]. *)
Definition depth_exceeded (depth : Z) : bool :=
  match maxdepth config with
  | None => false
  | Some m => (m <? depth)%Z
  end.

(** The [for menu in menus] loop: [i] is the position of the
    iterator in the list, which the body extends. *)
Fixpoint crawl_loop (fuel : nat) (i : nat) (menus gurls : list GopherURL)
         (depth : Z) : M F (list GopherURL) :=
  match fuel with
  | O => fun _ => None
  | S fuel' =>
      match nth_error menus i with
      | None => ret gurls
      | Some menu =>
          if depth_exceeded depth then ret gurls
          else
            links <~ gopher_urls_from_menu_link menu ;;
            let new_gurls := set_of links in
            let new_unique_gurls := set_difference new_gurls gurls in
            let gurls := set_update gurls new_unique_gurls in
            let new_unique_gurls_menus :=
              get_menus (iter_order E (S (S i)) new_unique_gurls) in
            let menus := (menus ++ new_unique_gurls_menus)%list in
            let depth := (depth + 1)%Z in
            crawl_loop fuel' (S i) menus gurls depth
      end
  end.

Definition crawl (fuel : nat) : M F (list GopherURL) :=
  links <~ gopher_urls_from_menu_link root_gurl ;;
  let gurls := set_of links in
  let menus :=
    (iter_order E 1 (set_of (get_menus (iter_order E 0 gurls)))
     ++ [root_gurl])%list in
  let depth := 0%Z in
  crawl_loop fuel 0 menus gurls depth.

End Program.

(* ================================================================= *)
(** ** Vocabulary of the properties *)

(** [c in s] for a character. *)
Fixpoint has_char (c : ascii) (s : string) : bool :=
  match s with
  | EmptyString => false
  | String d s' => Ascii.eqb d c || has_char c s'
  end.

(** What one line adds to the output. *)
Definition contribution (cwd line : string) : list GopherURL :=
  match getlinks_line cwd line with
  | Ok (Some url) => [url]
  | _ => []
  end.

Definition parser_exn (e : exn) : Prop := e = IndexError \/ e = ValueError.



Section DownloadRuns.
Context {F : Type} {PF : PyFloat F}.
Variable E : env.
Variable self : GopherURL.

(** The delay slept before the attempt that follows [n] failures. *)
Fixpoint nth_delay (d : F) (n : nat) : F :=
  match n with
  | O => d
  | S k => nth_delay (backoff d) k
  end.

(** The records of [n] consecutive attempts on [self], the first one
    after a sleep of [d]. *)
Fixpoint attempts (d : F) (n : nat) : list (event F) :=
  match n with
  | O => []
  | S k =>
      EvSleep d :: EvConnect (host self) (port self) (path self)
                :: attempts (backoff d) k
  end.

Definition after_attempts (w : world F) (d : F) (n : nat) : world F :=
  mkWorld (clock w + n) (fs w) (trace w ++ attempts d n)%list.

(** The [i]-th attempt counted from world [w] fails with one of the
    three errors that [download] catches. *)
Definition fails_retried (w : world F) (i : nat) : Prop :=
  exists e, net E (clock w + i) (host self) (port self) (path self) = Failed e
            /\ is_retried e = true.

End DownloadRuns.

(** Where [write_gopherurl] puts the file of a resource, and the
    directory of its host, as absolute component lists. *)
Definition storage_location (cwd archive : string) (g : GopherURL)
  : list string :=
  PosixPath.nonempty_parts
    (PosixPath.abspath cwd (PosixPath.join archive [GopherURL.to_file_path g])).

Definition host_directory (cwd archive : string) (g : GopherURL)
  : list string :=
  PosixPath.nonempty_parts
    (PosixPath.abspath cwd (PosixPath.join archive [host g])).

Fixpoint is_prefix_of (p l : list string) : bool :=
  match p, l with
  | [], _ => true
  | x :: p', y :: l' => String.eqb x y && is_prefix_of p' l'
  | _ :: _, [] => false
  end.

(** The file of the resource lies in the directory of its host. *)
Definition contained (cwd archive : string) (g : GopherURL) : bool :=
  is_prefix_of (host_directory cwd archive g) (storage_location cwd archive g).

(** The menus of the CALL records of a log, the pairs of the EXIT
    records, and every resource some EXIT record lists. *)
Fixpoint calls {F : Type} (tr : list (event F)) : list GopherURL :=
  match tr with
  | [] => []
  | EvCall menu :: rest => menu :: calls rest
  | _ :: rest => calls rest
  end.

Fixpoint exits {F : Type} (tr : list (event F))
  : list (GopherURL * list GopherURL) :=
  match tr with
  | [] => []
  | EvExit menu gurls :: rest => (menu, gurls) :: exits rest
  | _ :: rest => exits rest
  end.

Definition discovered {F : Type} (tr : list (event F)) : list GopherURL :=
  flat_map snd (exits tr).

(** How often the resource of [g] (its host and selector) was
    expanded. *)
Definition expansions_of {F : Type} (g : GopherURL) (tr : list (event F))
  : nat :=
  List.length (filter (GopherURL.__eq__ g) (calls tr)).

(** What a set goes by: two objects are the same element exactly when
    their keys are equal. *)
Definition key (E : env) (g : GopherURL) : Z * string * string :=
  (GopherURL.__hash__ (str_hash E) g, host g, path g).

(** How many elements of a set are the element [x]. *)
Definition occurrences (E : env) (x : GopherURL) (s : list GopherURL) : nat :=
  List.length (filter (same_elem E x) s).

(** [x] is in [l] by the identity of resources, host and selector:
    some element of [l] is [__eq__] to it. *)
Definition listed_in (x : GopherURL) (l : list GopherURL) : bool :=
  existsb (GopherURL.__eq__ x) l.

(** How many elements of [l] have the host and selector of [x]. *)
Definition copies (x : GopherURL) (l : list GopherURL) : nat :=
  List.length (filter (GopherURL.__eq__ x) l).

(** The worklist before the loop, for the children the expansion of
    the root returned. *)
Definition initial_worklist (E : env) (root_gurl : GopherURL)
           (children : list GopherURL) : list GopherURL :=
  (iter_order E 1 (set_of E (get_menus (iter_order E 0 (set_of E children))))
   ++ [root_gurl])%list.

(** A step that keeps the files and writes no CALL or EXIT record. *)
Definition quiet {F : Type} (w w' : world F) : Prop :=
  fs w' = fs w
  /\ exists added, trace w' = (trace w ++ added)%list
                   /\ calls added = [] /\ exits added = [].

(** The worklist is [pre ++ root_gurl :: post]; but for the entry of
    the root it lists the menus of the visited set, each once. *)
Definition worklist_inv (E : env) (pre post gurls : list GopherURL) : Prop :=
  NoDup (map (key E) gurls)
  /\ NoDup (map (key E) (pre ++ post))
  /\ (forall m, In m (pre ++ post)
                <-> In m gurls /\ GopherURL.is_menu m = true).

(** The resources a traversal can reach in a menu graph: what the root
    lists and what a menu reached lists. *)
Inductive listed (root_gurl : GopherURL)
          (links : GopherURL -> list GopherURL) : GopherURL -> Prop :=
  | listed_by_root (x : GopherURL) :
      In x (links root_gurl) -> listed root_gurl links x
  | listed_by_menu (m x : GopherURL) :
      listed root_gurl links m -> GopherURL.is_menu m = true ->
      In x (links m) -> listed root_gurl links x.

(** The resources of a menu graph: the root and what the menus list. *)
Definition graph_node (root_gurl : GopherURL) (U : list GopherURL)
           (g : GopherURL) : Prop :=
  g = root_gurl \/ In g U.

(* ================================================================= *)
(** ** Concrete worlds *)

(** Whether a number of seconds fits the clock of [time.sleep], a
    signed 64-bit count of nanoseconds. *)
Definition fits_clock (d : Q) : bool :=
  Qle_bool (inject_Z (- 9223372036854775808)) (d * inject_Z 1000000000)
  && Qle_bool (d * inject_Z 1000000000) (inject_Z 9223372036854775807).

(** Delays as exact rationals. *)
#[export] Instance PyFloat_Q : PyFloat Q := {|
  fadd := Qplus;
  fdiv := Qdiv;
  of_int := inject_Z;
  fne := fun a b => negb (Qeq_bool a b);
  sleep_ok := fun d => Qle_bool 0 d && fits_clock d;
  sleep_exn := fun d => if fits_clock d then ValueError else OverflowError
|}.

(** The options as [Config.__init__] sets them with no flag given but
    [-r]. *)
Definition default_config : Config Q :=
  mkConfig true None false false false false false 0%Q None None false
           "./archive/".

(** A server table: the menu text served for a host and a selector. *)
Definition site : Type := list (string * string * string).

Fixpoint served (t : site) (h sel : string) : option string :=
  match t with
  | [] => None
  | (h', sel', content) :: rest =>
      if String.eqb h h' && String.eqb sel sel' then Some content
      else served rest h sel
  end.

(** A network that answers every attempt the same way: the table's
    text, or a resolution failure for what the table lacks. *)
Definition static_net (t : site) : nat -> string -> Z -> string -> outcome :=
  fun _ h _ sel =>
    match served t h sel with
    | Some content => Received content
    | None => Failed GaiError
    end.

(** A stand-in string hash for the concrete runs. *)
Definition sum_hash (s : string) : Z :=
  fold_left (fun acc c => (31 * acc + Z.of_nat (nat_of_ascii c)) mod 4294967296)%Z
            (list_ascii_of_string s) 7%Z.

Definition static_env (t : site) : env :=
  mkEnv "/home/user" (static_net t) (fun bytes => bytes) sum_hash
        (fun _ l => l).

Definition empty_world : world Q := mkWorld 0 [] [].

Definition crlf : string := String "013" (String "010" "").

(** One menu line: type and text, selector, host, port. *)
Definition menu_line (ty txt sel h prt : string) : string :=
  ty ++ txt ++ String tab sel ++ String tab h ++ String tab prt ++ crlf.

Definition site1 : site :=
  [ ("example.org", "/", menu_line "1" "Sub" "/sub" "example.org" "70");
    ("example.org", "/sub", menu_line "0" "File" "/sub/file.txt" "example.org" "70") ].

(** The default options with [-l 0]. *)
Definition depth0_config : Config Q :=
  mkConfig true (Some 0%Z) false false false false false 0%Q None None false
           "./archive/".





Definition some_file : GopherURL :=
  mkGopherURL "0" "File" "/sub/file.txt" "example.org" 70.

(** The selector of the regression case, one that leaves the host
    directory for a sibling whose name starts like the host, and one
    with no host at all. *)
Definition climbing : GopherURL :=
  mkGopherURL "0" "x" "/../../etc/passwd" "example.org" 70.

Definition sibling : GopherURL :=
  mkGopherURL "0" "x" "/../example.org.evil/passwd" "example.org" 70.

Definition hostless : GopherURL :=
  mkGopherURL "0" "x" "/../../etc/passwd" "" 70.

(** A file whose host and selector leave nothing of the storage path. *)
Definition pathless : GopherURL := mkGopherURL "0" "x" "/" "" 70.

Definition sub_menu : GopherURL :=
  mkGopherURL "1" "Sub" "/sub" "example.org" 70.

Definition sub_file : GopherURL :=
  mkGopherURL "0" "Sub" "/sub" "example.org" 70.

Definition root_menu : GopherURL :=
  mkGopherURL "1" "[ROOT URL]" "/" "example.org" 70.

(** A network that serves [first] to the first attempt and [second]
    to the later ones. *)
Definition changing_net (first second : string)
  : nat -> string -> Z -> string -> outcome :=
  fun n _ _ _ => Received (if (n =? 0)%nat then first else second).

Definition changing_env (first second : string) : env :=
  mkEnv "/home/user" (changing_net first second) (fun bytes => bytes)
        sum_hash (fun _ l => l).

(** A store with the working directory and nothing else. *)
Definition home_world : world Q :=
  mkWorld 0 [(["home"], Dir); (["home"; "user"], Dir)] [].

(** The world after [write_gopherurl] has fetched and stored the root
    menu under the default options. *)
Definition persisted_world : world Q :=
  Eval vm_compute in
    match write_gopherurl (changing_env "first" "second") default_config
                          root_menu None home_world with
    | Some (_, w) => w
    | None => home_world
    end.

(** The default options but for the archive directory, here the
    working directory. *)
Definition cwd_config : Config Q :=
  mkConfig true None false false false false false 0%Q None None false "".

Definition persisted_in_cwd : world Q :=
  Eval vm_compute in
    match write_gopherurl (changing_env "first" "second") cwd_config
                          root_menu None home_world with
    | Some (_, w) => w
    | None => home_world
    end.

(** The outcome of [crawl] on [site1] from its root: with the default
    options, and with [-l 0]. *)
Definition default_run : option (result (list GopherURL) * world Q) :=
  Eval vm_compute in
    crawl (static_env site1) default_config root_menu 10 empty_world.

Definition default_final : world Q :=
  Eval vm_compute in
    match default_run with Some (_, w) => w | None => empty_world end.

Definition depth0_final : world Q :=
  Eval vm_compute in
    match crawl (static_env site1) depth0_config root_menu 10 empty_world with
    | Some (_, w) => w
    | None => empty_world
    end.

(** A root menu that lists itself. *)
Definition self_site : site :=
  [ ("example.org", "/", menu_line "1" "Home" "/" "example.org" "70") ].

Definition self_final : world Q :=
  Eval vm_compute in
    match crawl (static_env self_site) default_config root_menu 10
                empty_world with
    | Some (_, w) => w
    | None => empty_world
    end.

(** Two menus that list each other. *)
Definition menu_a : GopherURL := mkGopherURL "1" "A" "/" "example.org" 70.
Definition menu_b : GopherURL := mkGopherURL "1" "B" "/b" "example.org" 70.

Definition cycle_site : site :=
  [ ("example.org", "/", menu_line "1" "B" "/b" "example.org" "70");
    ("example.org", "/b", menu_line "1" "A" "/" "example.org" "70") ].

(** A cycle below the root, next to another menu: the root lists X
    and A, A lists B and B lists A. *)
Definition menu_x : GopherURL := mkGopherURL "1" "X" "/x" "example.org" 70.
Definition inner_a : GopherURL := mkGopherURL "1" "A" "/a" "example.org" 70.
Definition inner_b : GopherURL := mkGopherURL "1" "B" "/b" "example.org" 70.

Definition inner_cycle_site : site :=
  [ ("example.org", "/",
     menu_line "1" "X" "/x" "example.org" "70"
     ++ menu_line "1" "A" "/a" "example.org" "70");
    ("example.org", "/x", "");
    ("example.org", "/a", menu_line "1" "B" "/b" "example.org" "70");
    ("example.org", "/b", menu_line "1" "A" "/a" "example.org" "70") ].

(** The cycle of [cycle_site], with B listing A a second time, as a
    file. *)
Definition file_a : GopherURL := mkGopherURL "0" "A" "/" "example.org" 70.

Definition two_kinds_site : site :=
  [ ("example.org", "/", menu_line "1" "B" "/b" "example.org" "70");
    ("example.org", "/b",
     menu_line "1" "A" "/" "example.org" "70"
     ++ menu_line "0" "A" "/" "example.org" "70") ].

Definition cycle_links (g : GopherURL) : list GopherURL :=
  if String.eqb (path g) "/" then [menu_b]
  else if String.eqb (path g) "/b" then [menu_a]
  else [].

(* ================================================================= *)
(** ** The rest of the program: logging helper, root address, orchestration *)

(** [_str[:k]] and [_str[-k:]]; with [k = 0] the latter is the whole
    string. *)
Definition py_prefix (k : nat) (s : string) : string := substring 0 k s.

Definition py_suffix (k : nat) (s : string) : string :=
  if (k =? 0)%nat then s
  else substring (String.length s - k) k s.

(** [_str_slice(_str, maxlen)] of the [log] decorator; the program
    only uses the default [maxlen = 150]. *)
Definition _str_slice (_str : string) (maxlen : nat) : string :=
  if (String.length _str <=? maxlen)%nat then _str
  else py_prefix (maxlen / 2) _str ++ "..." ++ py_suffix (maxlen / 2) _str.

(** [s[-1]] as a one-character string. *)
Fixpoint last_char (s : string) : result string :=
  match s with
  | EmptyString => Raise IndexError
  | String c EmptyString => Ok (String c EmptyString)
  | String _ s' => last_char s'
  end.

(** hueristic: probably a menu if there's no file extension or ends
    in /.  The [or] evaluates [path[-1]] only when the first test
    fails. *)
Definition probably_a_menu (path : string) : result bool :=
  let end_ := last (PyStr.split "/" path) EmptyString in
  if negb (PyStr.contains "." end_) then Ok true
  else
    c <- last_char path ;;
    Ok (String.eqb c "/").

(** What [spliturl] reads of the result of [urllib.parse.urlsplit];
    the [port] property raises [ValueError] when read if the port is
    not a number in range. *)
Record SplitResult : Type := mkSplitResult {
  url_path : string;
  url_netloc : string;
  url_port : result (option Z);
  url_query : string
}.

(** Return a tuple, (host,port,path).  [urlsplit] is the library's. *)
Definition spliturl (urlsplit : string -> result SplitResult)
           (urlstr : string) : result (string * Z * string) :=
  let has_gopher_scheme := String.eqb (substring 0 9 urlstr) "gopher://" in
  let has_scheme := PyStr.contains "://" urlstr in
  (* They specified an incompatible protocol *)
  if has_scheme && negb has_gopher_scheme then Raise ValueError
  else
    (* Assume they meant gopher, give it an empty scheme *)
    let urlstr : string := if negb has_scheme then "//" ++ urlstr else urlstr in
    url <- urlsplit urlstr ;;
    let path : string :=
      if (String.length (url_path url) =? 0)%nat then "/" else url_path url in
    host <- PyStr.index (PyStr.split ":" (url_netloc url)) 0 ;;
    port_read <- url_port url ;;
    let port := match port_read with
                | None => 70%Z
                | Some n => n
                end in
    Ok (host, port,
        if PyStr.is_empty (url_query url) then path
        else (path ++ "?" ++ url_query url)%string).

Section Orchestration.
Context {F : Type} {PF : PyFloat F}.
Variable E : env.
Variable config : Config F.

Fixpoint download_gopher_urls (gopher_urls : list GopherURL) : M F unit :=
  match gopher_urls with
  | [] => ret tt
  | gurl :: rest =>
      _ <~ write_gopherurl E config gurl None ;;
      download_gopher_urls rest
  end.

(** [gopherdl(host, config)].  [final_order] is the order in which the
    set that [crawl] returned is iterated (twice, unchanged in
    between).  The test [gopher_urls == []] compares a set with a list
    and never holds: its branch is left out. *)
Definition gopherdl (urlsplit : string -> result SplitResult)
           (final_order : list GopherURL -> list GopherURL)
           (fuel : nat) (host : string) : M F unit :=
  hpp <~ lift (spliturl urlsplit host) ;;
  let '(host, port, path) := hpp in
  menu <~ lift (probably_a_menu path) ;;
  let root_gurl_type : string := if menu : bool then "1" else "0" in
  let root_gurl := mkGopherURL root_gurl_type "[ROOT URL]" path host port in
  if recursive config then
    (* Recursive download *)
    gopher_urls <~ crawl E config root_gurl fuel ;;
    let gopher_files := get_files (final_order gopher_urls) in
    let gopher_menus := get_menus (final_order gopher_urls) in
    let gopher_menus := if no_save_menu config then [] else gopher_menus in
    let gopher_files := if only_save_menu config then [] else gopher_files in
    _ <~ (if (0 <? List.length gopher_menus)%nat
          then download_gopher_urls gopher_menus else ret tt) ;;
    if (0 <? List.length gopher_files)%nat
    then download_gopher_urls gopher_files else ret tt
  else
    (* Single file download *)
    write_gopherurl E config root_gurl None.

End Orchestration.

(** What [urlsplit] answers for ["//example.org:7070"]. *)
Definition urlsplit_sample (urlstr : string) : result SplitResult :=
  Ok (mkSplitResult "" "example.org:7070" (Ok (Some 7070%Z)) "").


(** [to_url()] of the link is not rejected by [-R] and is accepted
    by [-A], where these are given. *)
Definition passes_regexes {F : Type} (config : Config F) (link : GopherURL)
  : bool :=
  negb match reject_regex config with
       | Some fullmatch => fullmatch (GopherURL.to_url link)
       | None => false
       end
  && match accept_regex config with
     | Some fullmatch => fullmatch (GopherURL.to_url link)
     | None => true
     end.

(** A network on which every connection is reset. *)
Definition reset_env : env :=
  mkEnv "/home/user" (fun _ _ _ _ => Failed OSError) (fun bytes => bytes)
        sum_hash (fun _ l => l).

(** The world after an expansion of [g] from [w] that made [n]
    attempts and returned [gurls]. *)
Definition after_expansion {F : Type} {PF : PyFloat F} (g : GopherURL)
           (d : F) (n : nat) (gurls : list GopherURL) (w : world F) : world F :=
  mkWorld (clock w + n) (fs w)
          (trace w ++ EvCall g :: attempts g d n ++ [EvExit g gurls])%list.

(** The store [fs'] has every entry of [fs], and every directory of
    [fs] as a directory. *)
Definition fs_extends (fs fs' : filesystem) : Prop :=
  forall k,
    (fs_lookup fs k = Some Dir -> fs_lookup fs' k = Some Dir)
    /\ (fs_lookup fs k <> None -> fs_lookup fs' k <> None).

(** An address with a scheme other than [gopher]. *)
Definition foreign_scheme (urlstr : string) : bool :=
  PyStr.contains "://" urlstr
  && negb (String.eqb (substring 0 9 urlstr) "gopher://").

Section Main.
Context {F : Type} {PF : PyFloat F}.
Variable E : env.
Variable config : Config F.
Variable urlsplit : string -> result SplitResult.
Variable final_order : list GopherURL -> list GopherURL.

(** The loop of [main] over the hosts: a [ValueError] is logged and
    the next host is taken, any other error ends the run. *)
Fixpoint main_hosts (fuel : nat) (hosts : list string) : M F unit :=
  match hosts with
  | [] => ret tt
  | host :: rest =>
      fun w =>
        match gopherdl E config urlsplit final_order fuel host w with
        | None => None
        | Some (Raise ValueError, w') => main_hosts fuel rest w'
        | Some (Raise e, w') => Some (Raise e, w')
        | Some (Ok _, w') => main_hosts fuel rest w'
        end
  end.

End Main.

(** A store with the working directory and a file saved under the
    default archive directory. *)
Definition archived_world : world Q :=
  mkWorld 0 [ (["home"; "user"; "archive"; "example.org"; "file.txt"],
               File "old");
              (["home"; "user"; "archive"; "example.org"], Dir);
              (["home"; "user"; "archive"], Dir);
              (["home"; "user"], Dir);
              (["home"], Dir) ] [].

Definition archived_file : GopherURL :=
  mkGopherURL "0" "File" "/file.txt" "example.org" 70.

(** A selector that goes through a new directory and then through the
    saved file as if it were a directory. *)
Definition detour_file : GopherURL :=
  mkGopherURL "0" "x" "/new/../file.txt/sub/x" "example.org" 70.

(** What [urlsplit] answers for ["//example.org"]. *)
Definition urlsplit_host (urlstr : string) : result SplitResult :=
  Ok (mkSplitResult "" "example.org" (Ok None) "").

(** [-r -m -n]. *)
Definition both_flags_config : Config Q :=
  mkConfig true None false false true true false 0%Q None None false
           "./archive/".

Definition saved_final : world Q :=
  Eval vm_compute in
    match gopherdl (static_env site1) default_config urlsplit_host
                   (fun l => l) 10 "example.org" archived_world with
    | Some (_, w) => w
    | None => archived_world
    end.

Definition unsaved_final : world Q :=
  Eval vm_compute in
    match gopherdl (static_env site1) both_flags_config urlsplit_host
                   (fun l => l) 10 "example.org" archived_world with
    | Some (_, w) => w
    | None => archived_world
    end.

Definition query_file : GopherURL :=
  mkGopherURL "0" "Search" "/cgi?q=1" "example.org" 70.

(* ================================================================= *)
(** * Properties *)

(* ================================================================= *)
(** ** The model of the library on sample inputs *)

Example normpath_keeps_two_slashes : PosixPath.normpath "//a/../.." = "//".
Proof. reflexivity. Qed.

Example normpath_climbs : PosixPath.normpath "a/../.." = "..".
Proof. reflexivity. Qed.

Example normpath_three_slashes : PosixPath.normpath "///a" = "/a".
Proof. reflexivity. Qed.

Example relpath_climbing :
  PosixPath.relpath "/tmp" "example.org/../../etc/passwd" = Ok "../etc/passwd".
Proof. reflexivity. Qed.

Example relpath_sibling :
  PosixPath.relpath "/tmp" "example.org/../example.org.evil/passwd"
  = Ok "example.org.evil/passwd".
Proof. reflexivity. Qed.

Example relpath_here : PosixPath.relpath "/tmp" "h/.." = Ok ".".
Proof. reflexivity. Qed.

Example relpath_above_root :
  PosixPath.relpath "/tmp" "../../../../x" = Ok "../x".
Proof. reflexivity. Qed.

Example dirname_of_file :
  PosixPath.dirname "./archive/h/gophermap" = "./archive/h".
Proof. reflexivity. Qed.

Example dirname_of_name : PosixPath.dirname "x" = "".
Proof. reflexivity. Qed.

Example int_literals :
  map PyStr.int
      ["1_0"; "+5"; "-3"; "1__0"; "_1"; "0x10"; ""; "+"; "1 2"; "0_0"; "1_";
       "007"; "-0"]
  = [Ok 10; Ok 5; Ok (-3); Raise ValueError; Raise ValueError;
     Raise ValueError; Raise ValueError; Raise ValueError; Raise ValueError;
     Ok 0; Raise ValueError; Ok 7; Ok 0]%Z.
Proof. reflexivity. Qed.

Example strip_then_split :
  PyStr.split tab (PyStr.strip PyStr.is_space
                               ("a" ++ String tab "b" ++ String tab ""))
  = ["a"; "b"].
Proof. reflexivity. Qed.

Example to_url_samples :
  map GopherURL.to_url
      [mkGopherURL "0" "" "/a?q=1" "h" 70; mkGopherURL "0" "" "/a" "" 70;
       mkGopherURL "0" "" "a" "h" 70; mkGopherURL "0" "" "//a" "" 70;
       mkGopherURL "0" "" "" "h" 70; mkGopherURL "0" "" "x?q" "" 70]
  = ["gopher://h/a;q=1"; "gopher:///a"; "gopher://h/a"; "gopher://a";
     "gopher://h"; "gopher:///x;q"].
Proof. reflexivity. Qed.

(** The menu of two lines parses to a menu and a file. *)
Example getlinks_two_lines :
  getlinks "/home/user"
           (menu_line "1" "Sub" "/sub" "example.org" "70"
            ++ menu_line "0" "File" "/sub/file.txt" "example.org" "70")
  = Ok [sub_menu; some_file].
Proof. reflexivity. Qed.

(* ================================================================= *)
(** ** Strings: splitting what was joined *)

Lemma split_not_nil (c : ascii) (s : string) : PyStr.split c s <> [].
Proof.
  destruct s as [|d s]; simpl; [discriminate|].
  destruct (Ascii.eqb d c); [discriminate|].
  destruct (PyStr.split c s); discriminate.
Qed.


Lemma split_append_sep (c : ascii) (x s : string) :
  has_char c x = false ->
  PyStr.split c (x ++ String c s) = x :: PyStr.split c s.
Proof.
  induction x as [|d x IH]; simpl; intros H.
  - rewrite Ascii.eqb_refl. reflexivity.
  - apply orb_false_iff in H as [Hd Hx].
    rewrite Hd, (IH Hx). reflexivity.
Qed.


Lemma join_cons (sep : string) (x : string) (l : list string) :
  l <> [] -> PyStr.join sep (x :: l) = x ++ sep ++ PyStr.join sep l.
Proof. destruct l; [congruence | reflexivity]. Qed.

(** Joining what was split gives the string back. *)
Lemma join_split (c : ascii) (s : string) :
  PyStr.join (String c "") (PyStr.split c s) = s.
Proof.
  induction s as [|d s IH]; [reflexivity|].
  simpl PyStr.split. destruct (Ascii.eqb d c) eqn:Hd.
  - apply Ascii.eqb_eq in Hd. subst d.
    rewrite join_cons by apply split_not_nil. simpl. now rewrite IH.
  - destruct (PyStr.split c s) as [|w ws] eqn:Hs.
    + now apply split_not_nil in Hs.
    + destruct ws as [|w' ws].
      * simpl in *. now rewrite IH.
      * rewrite join_cons by discriminate.
        rewrite join_cons in IH by discriminate.
        rewrite <- IH. reflexivity.
Qed.

(* ================================================================= *)
(** ** The menu parser *)

Lemma index_exn {A : Type} (l : list A) (i : nat) (e : exn) :
  PyStr.index l i = Raise e -> e = IndexError.
Proof.
  unfold PyStr.index. destruct (nth_error l i); congruence.
Qed.

Lemma int_exn (s : string) (e : exn) : PyStr.int s = Raise e -> e = ValueError.
Proof.
  unfold PyStr.int.
  destruct (match s with
            | String "-" r => (true, r)
            | String "+" r => (false, r)
            | _ => (false, s)
            end) as [neg body].
  destruct body as [|c body]; [congruence|].
  destruct (PyStr.is_digit c); [|congruence].
  destruct (PyStr.digits false (String c body)); [|congruence].
  destruct (_ <? _)%nat; congruence.
Qed.

Lemma relpath_exn (cwd p : string) (e : exn) :
  PosixPath.relpath cwd p = Raise e -> e = ValueError.
Proof.
  unfold PosixPath.relpath. destruct (PyStr.is_empty p); [congruence|].
  destruct (_ ++ _)%list; congruence.
Qed.

Lemma valid_exn (cwd : string) (g : GopherURL) (e : exn) :
  GopherURL.valid cwd g = Raise e -> e = ValueError.
Proof.
  unfold GopherURL.valid.
  repeat match goal with |- context [if ?b then Ok false else _] =>
    destruct b; [congruence|] end.
  destruct (PosixPath.relpath cwd (GopherURL.to_file_path g)) eqn:R; simpl.
  - destruct (negb _); congruence.
  - intros H. injection H as <-. eapply relpath_exn; eauto.
Qed.

(** The [try] block raises nothing but what its handlers catch. *)
Lemma getlinks_line_exn (cwd line : string) (e : exn) :
  getlinks_line cwd line = Raise e -> parser_exn e.
Proof.
  unfold getlinks_line, parser_exn.
  set (tokens := PyStr.split tab (PyStr.strip PyStr.is_space line)).
  destruct (PyStr.index tokens 0) as [tok0|e0] eqn:I0; simpl;
    [|intros H; injection H as <-; left; eapply index_exn; eauto].
  destruct (PyStr.first_char tok0) as [typ|e1] eqn:FC; simpl.
  2:{ intros H; injection H as <-. left.
      destruct tok0; simpl in FC; congruence. }
  destruct (String.eqb typ "i"); [congruence|].
  destruct (PyStr.index tokens 1) as [tok1|e1] eqn:I1; simpl;
    [|intros H; injection H as <-; left; eapply index_exn; eauto].
  destruct (PyStr.index tokens 2) as [tok2|e2] eqn:I2; simpl;
    [|intros H; injection H as <-; left; eapply index_exn; eauto].
  destruct (PyStr.index tokens 3) as [tok3|e3] eqn:I3; simpl;
    [|intros H; injection H as <-; left; eapply index_exn; eauto].
  destruct (PyStr.int _) as [p|e4] eqn:PI; simpl;
    [|intros H; injection H as <-; right; eapply int_exn; eauto].
  destruct (GopherURL.valid cwd _) as [v|e5] eqn:V; simpl.
  - destruct (negb v); congruence.
  - intros H; injection H as <-; right; eapply valid_exn; eauto.
Qed.

(** The parser is line-wise: its output is the concatenation of what
    each line adds, in line order. *)
Lemma getlinks_loop_spec (cwd : string) (lines : list string) :
  forall urls,
    getlinks_loop cwd lines urls
    = Ok (urls ++ flat_map (contribution cwd) lines)%list.
Proof.
  induction lines as [|line rest IH]; intros urls; simpl.
  - now rewrite app_nil_r.
  - unfold contribution at 1.
    destruct (getlinks_line cwd line) as [[url|]|e] eqn:L.
    + rewrite IH. now rewrite <- app_assoc.
    + apply IH.
    + destruct (getlinks_line_exn _ _ _ L) as [-> | ->]; apply IH.
Qed.

Lemma getlinks_spec (cwd menucontent : string) :
  getlinks cwd menucontent
  = Ok (flat_map (contribution cwd) (PyStr.split newline menucontent)).
Proof. unfold getlinks. now rewrite getlinks_loop_spec. Qed.




(** X7. The parser never raises. *)
Lemma getlinks_total (cwd menucontent : string) :
  exists urls, getlinks cwd menucontent = Ok urls.
Proof. eexists. apply getlinks_spec. Qed.



(* ================================================================= *)
(** ** The fetch primitive *)

Section Download.
Context {F : Type} {PF : PyFloat F}.
Variable E : env.
Variable self : GopherURL.

Lemma after_attempts_S (w : world F) (d : F) (n : nat) :
  after_attempts self
    (mkWorld (S (clock w)) (fs w)
             (trace w ++ [EvSleep d]
                      ++ [EvConnect (host self) (port self) (path self)])%list)
    (backoff d) n
  = after_attempts self w d (S n).
Proof.
  unfold after_attempts. simpl. f_equal; [lia|].
  rewrite <- !app_assoc. reflexivity.
Qed.

Lemma after_attempts_1 (w : world F) (d : F) :
  mkWorld (S (clock w)) (fs w)
          (trace w ++ [EvSleep d]
                   ++ [EvConnect (host self) (port self) (path self)])%list
  = after_attempts self w d 1.
Proof.
  unfold after_attempts. simpl. f_equal. lia.
Qed.

Lemma download_loop_step (fuel retries : nat) (d : F) (w : world F) :
  sleep_ok d = true ->
  download_loop E self (S fuel) retries d w
  = let w' := mkWorld (S (clock w)) (fs w)
                      (trace w ++ [EvSleep d]
                         ++ [EvConnect (host self) (port self) (path self)])%list in
    match net E (clock w) (host self) (port self) (path self) with
    | Received buffer => Some (Ok (Some buffer), w')
    | Failed e =>
        if is_retried e then
          if (3 <? S retries)%nat then Some (Ok None, w')
          else download_loop E self fuel (S retries) (backoff d) w'
        else Some (Raise e, w')
    end.
Proof.
  intros Hs. simpl. unfold mbind, sleep, emit, attempt. rewrite Hs. simpl.
  rewrite <- app_assoc. reflexivity.
Qed.


(** Once the counter of caught failures passes 3 the loop is left
    and nothing is returned. *)
Lemma download_loop_gives_up (k : nat) :
  forall fuel retries d w,
    (k < fuel)%nat -> (retries + k = 3)%nat ->
    (forall i, (i <= k)%nat -> sleep_ok (nth_delay d i) = true) ->
    (forall i, (i <= k)%nat -> fails_retried E self w i) ->
    download_loop E self fuel retries d w
    = Some (Ok None, after_attempts self w d (S k)).
Proof.
  induction k as [|k IH]; intros fuel retries d w Hf Hr Hs Hfail;
    (destruct fuel as [|fuel]; [lia|]);
    rewrite download_loop_step by (apply (Hs 0%nat); lia);
    destruct (Hfail 0%nat ltac:(lia)) as (e & He & Hret);
    rewrite Nat.add_0_r in He; cbv zeta; rewrite He, Hret.
  - replace (3 <? S retries)%nat with true
      by (symmetry; apply Nat.ltb_lt; lia).
    now rewrite after_attempts_1.
  - replace (3 <? S retries)%nat with false
      by (symmetry; apply Nat.ltb_ge; lia).
    rewrite (IH fuel (S retries) (backoff d)).
    + now rewrite after_attempts_S.
    + lia.
    + lia.
    + intros i Hi. apply (Hs (S i)). lia.
    + intros i Hi. destruct (Hfail (S i) ltac:(lia)) as (e' & He' & Hr').
      exists e'. split; [|exact Hr']. simpl.
      now replace (S (clock w + i)) with (clock w + S i)%nat by lia.
Qed.

(** The loop of [download] is left within four passes. *)
Lemma download_loop_total (fuel : nat) :
  forall retries d w,
    (retries <= 3)%nat -> (4 <= fuel + retries)%nat ->
    download_loop E self fuel retries d w <> None.
Proof.
  induction fuel as [|fuel IH]; intros retries d w Hr Hf; [lia|].
  simpl. unfold mbind, sleep, throw, emit, attempt.
  destruct (sleep_ok d); [|discriminate]. simpl.
  destruct (net E (clock w) (host self) (port self) (path self)) as [b|e];
    [discriminate|].
  destruct (is_retried e); [|discriminate].
  destruct (3 <? S retries)%nat eqn:H3; [discriminate|].
  apply Nat.ltb_ge in H3. apply IH; lia.
Qed.

Lemma download_total (d : F) (w : world F) : download E self d w <> None.
Proof. apply download_loop_total; lia. Qed.


End Download.


(* ================================================================= *)
(** ** The resource class: identity and validity *)

Lemma eq_iff_host_path (a b : GopherURL) :
  GopherURL.__eq__ a b = true <-> host a = host b /\ path a = path b.
Proof.
  unfold GopherURL.__eq__. rewrite andb_true_iff, !String.eqb_eq. tauto.
Qed.

(** The storage path is a function of host, selector and kind. *)
Lemma to_file_path_of_equal (a b : GopherURL) :
  GopherURL.__eq__ a b = true ->
  GopherURL.is_menu a = GopherURL.is_menu b ->
  GopherURL.to_file_path a = GopherURL.to_file_path b.
Proof.
  intros [Hh Hp]%eq_iff_host_path Hm.
  unfold GopherURL.to_file_path, GopherURL.to_url_path.
  now rewrite Hh, Hp, Hm.
Qed.

Lemma hash_of_equal (str_hash : string -> Z) (a b : GopherURL) :
  GopherURL.__eq__ a b = true ->
  GopherURL.is_menu a = GopherURL.is_menu b ->
  GopherURL.__hash__ str_hash a = GopherURL.__hash__ str_hash b.
Proof.
  intros He Hm. unfold GopherURL.__hash__.
  now rewrite (to_file_path_of_equal a b He Hm).
Qed.

Lemma append_empty (a b : string) : a ++ b = "" -> a = "" /\ b = "".
Proof. destruct a; simpl; [auto | discriminate]. Qed.

Lemma append_length (a b : string) :
  String.length (a ++ b) = (String.length a + String.length b)%nat.
Proof. induction a as [|c a IH]; simpl; [reflexivity | now rewrite IH]. Qed.

(** Joining a relative part to a path extends the path. *)
Lemma join2_relative (p b : string) :
  PyStr.startswith b PosixPath.sep = false ->
  exists glue, PosixPath.join2 p b = p ++ glue ++ b.
Proof.
  intros Hb. unfold PosixPath.join2. rewrite Hb.
  destruct (PyStr.is_empty p || PyStr.endswith_char p "/").
  - now exists "".
  - now exists PosixPath.sep.
Qed.

Lemma to_url_path_spec (g : GopherURL) :
  GopherURL.to_url_path g
  = PosixPath.join2 (host g) (PyStr.strip PyStr.is_slash (path g)).
Proof.
  unfold GopherURL.to_url_path, PosixPath.join, PosixPath.sep. simpl.
  now rewrite join_split.
Qed.

(** The storage path of a menu is that of the file with the same host
    and selector, and the file name of menus after it. *)
Lemma to_file_path_menu (g : GopherURL) :
  GopherURL.is_menu g = true ->
  exists glue,
    GopherURL.to_file_path g = GopherURL.to_url_path g ++ glue ++ "gophermap".
Proof.
  intros Hm. unfold GopherURL.to_file_path. rewrite Hm.
  unfold PosixPath.join. simpl. now apply join2_relative.
Qed.

Lemma to_file_path_file (g : GopherURL) :
  GopherURL.is_menu g = false ->
  GopherURL.to_file_path g = GopherURL.to_url_path g.
Proof. intros Hm. unfold GopherURL.to_file_path. now rewrite Hm. Qed.

(** Equal resources of different kinds have different storage paths:
    their hashes agree only where the string hash collides. *)
Lemma to_file_path_of_kinds (a b : GopherURL) :
  GopherURL.__eq__ a b = true ->
  GopherURL.is_menu a = true -> GopherURL.is_menu b = false ->
  GopherURL.to_file_path a <> GopherURL.to_file_path b.
Proof.
  intros [Hh Hp]%eq_iff_host_path Ha Hb.
  destruct (to_file_path_menu a Ha) as (glue & ->).
  rewrite (to_file_path_file b Hb).
  unfold GopherURL.to_url_path. rewrite Hh, Hp. intros H.
  apply (f_equal String.length) in H. rewrite !append_length in H.
  simpl in H. lia.
Qed.

(** The storage path is empty for the files with no host whose
    selector is made of slashes, and for nothing else. *)
Lemma to_file_path_empty (g : GopherURL) :
  GopherURL.to_file_path g = ""
  <-> GopherURL.is_menu g = false /\ host g = ""
      /\ PyStr.strip PyStr.is_slash (path g) = "".
Proof.
  split.
  - intros H. destruct (GopherURL.is_menu g) eqn:Hm.
    + destruct (to_file_path_menu g Hm) as (glue & Hg). rewrite Hg in H.
      apply append_empty in H as [_ H]. apply append_empty in H as [_ H].
      discriminate.
    + rewrite (to_file_path_file g Hm), to_url_path_spec in H.
      split; [reflexivity|]. unfold PosixPath.join2 in H.
      destruct (PyStr.startswith _ PosixPath.sep) eqn:Hs.
      * rewrite H in Hs. discriminate.
      * destruct (PyStr.is_empty (host g) || PyStr.endswith_char (host g) "/").
        -- now apply append_empty in H.
        -- apply append_empty in H as [_ H]. discriminate.
  - intros (Hm & Hh & Hp).
    rewrite (to_file_path_file g Hm), to_url_path_spec, Hh, Hp. reflexivity.
Qed.

(** C5. Two resources with the same host and selector, one listed as a
    menu and one as a file, are equal for [__eq__] while the strings
    that [__hash__] hashes differ: their hashes agree only where the
    string hash collides, and a set keeps both. *)
Theorem eq_without_equal_hash :
  GopherURL.__eq__ sub_menu sub_file = true
  /\ GopherURL.to_file_path sub_menu = "example.org/sub/gophermap"
  /\ GopherURL.to_file_path sub_file = "example.org/sub"
  /\ (forall str_hash : string -> Z,
         str_hash "example.org/sub/gophermap" <> str_hash "example.org/sub" ->
         GopherURL.__hash__ str_hash sub_menu
         <> GopherURL.__hash__ str_hash sub_file)
  /\ set_of (static_env []) [sub_menu; sub_file] = [sub_menu; sub_file].
Proof.
  split; [reflexivity|].
  split; [vm_compute; reflexivity|].
  split; [vm_compute; reflexivity|].
  split; [intros str_hash H; exact H|].
  vm_compute; reflexivity.
Qed.

(** What [valid] computes, case by case. *)
Lemma valid_spec (cwd : string) (g : GopherURL) :
  GopherURL.valid cwd g
  = if (String.length (path g) =? 0)%nat || (port g <=? 0)%Z
       || GopherURL.type_is_invalid g || PyStr.contains "URL:" (path g)
    then Ok false
    else match PosixPath.relpath cwd (GopherURL.to_file_path g) with
         | Ok file_path => Ok (PyStr.startswith file_path (host g))
         | Raise e => Raise e
         end.
Proof.
  unfold GopherURL.valid.
  destruct (String.length (path g) =? 0)%nat; [reflexivity|].
  destruct (port g <=? 0)%Z; [reflexivity|].
  destruct (GopherURL.type_is_invalid g); [reflexivity|].
  destruct (PyStr.contains "URL:" (path g)); [reflexivity|]. simpl.
  destruct (PosixPath.relpath cwd (GopherURL.to_file_path g)); simpl;
    [|reflexivity].
  now destruct (PyStr.startswith a (host g)).
Qed.

(** [valid] returns a boolean whenever the storage path is not empty. *)
Lemma valid_returns (cwd : string) (g : GopherURL) :
  GopherURL.to_file_path g <> "" -> exists b, GopherURL.valid cwd g = Ok b.
Proof.
  intros Hne. rewrite valid_spec.
  destruct (_ || _); [now eexists|].
  unfold PosixPath.relpath.
  destruct (GopherURL.to_file_path g); [congruence|]. simpl.
  destruct (_ ++ _)%list; now eexists.
Qed.

(** [valid] raises exactly on the resources that pass its first four
    tests and have an empty storage path. *)
Lemma valid_raises_iff (cwd : string) (g : GopherURL) (e : exn) :
  GopherURL.valid cwd g = Raise e
  <-> e = ValueError
      /\ ((String.length (path g) =? 0)%nat || (port g <=? 0)%Z
          || GopherURL.type_is_invalid g || PyStr.contains "URL:" (path g))
         = false
      /\ GopherURL.is_menu g = false /\ host g = ""
      /\ PyStr.strip PyStr.is_slash (path g) = "".
Proof.
  rewrite valid_spec. destruct (_ || _).
  - split; [discriminate | intros (_ & H & _); discriminate].
  - rewrite <- to_file_path_empty. unfold PosixPath.relpath.
    destruct (GopherURL.to_file_path g) as [|c p]; simpl.
    + split; [intros H; injection H as <-; auto|].
      intros (-> & _). reflexivity.
    + destruct (_ ++ _)%list;
        (split; [discriminate | intros (_ & _ & H); discriminate]).
Qed.

(** The verdict of [valid] depends on the working directory. *)
Example valid_depends_on_cwd :
  GopherURL.valid "/w" (mkGopherURL "0" "x" "/../../w/h/x" "h" 70) = Ok true
  /\ GopherURL.valid "/tmp" (mkGopherURL "0" "x" "/../../w/h/x" "h" 70)
     = Ok false.
Proof. split; vm_compute; reflexivity. Qed.

(** C9. For a file with an empty host and the selector ["/"] none of
    the first four rejections applies, the storage path is empty, and
    [valid] raises [ValueError] where a boolean is expected; the menu
    parser catches it as if the port were malformed. Besides, the last
    test compares strings, not path segments: a relative storage path
    whose first segment only starts like the host passes it. *)
Theorem valid_raises_on_empty_storage_path :
  forall cwd : string,
    (String.length (path pathless) =? 0)%nat = false
    /\ (port pathless <=? 0)%Z = false
    /\ GopherURL.type_is_invalid pathless = false
    /\ PyStr.contains "URL:" (path pathless) = false
    /\ GopherURL.to_file_path pathless = ""
    /\ GopherURL.valid cwd pathless = Raise ValueError
    /\ getlinks_line cwd ("0x" ++ String tab "/" ++ String tab ""
                               ++ String tab "70")
       = Raise ValueError
    /\ PosixPath.relpath "/home/user" (GopherURL.to_file_path sibling)
       = Ok "example.org.evil/passwd"
    /\ GopherURL.valid "/home/user" sibling = Ok true.
Proof. intros cwd. repeat split; vm_compute; reflexivity. Qed.

(** C1. The selector of the regression case is rejected; a selector
    that climbs out of the host directory into a sibling whose name
    begins with the host name is accepted, and so is a climbing
    selector on an empty host: the parser returns both resources, and
    their files land outside the directory of the host, the second one
    outside the archive. *)
Theorem valid_accepts_escaping_selector :
  GopherURL.valid "/home/user" climbing = Ok false
  /\ GopherURL.valid "/home/user" sibling = Ok true
  /\ storage_location "/home/user" "./archive/" sibling
     = ["home"; "user"; "archive"; "example.org.evil"; "passwd"]
  /\ contained "/home/user" "./archive/" sibling = false
  /\ GopherURL.valid "/home/user" hostless = Ok true
  /\ storage_location "/home/user" "./archive/" hostless
     = ["home"; "etc"; "passwd"]
  /\ contained "/home/user" "./archive/" hostless = false
  /\ getlinks "/home/user"
              (menu_line "0" "x" "/../example.org.evil/passwd" "example.org" "70"
               ++ menu_line "0" "x" "/../../etc/passwd" "" "70")
     = Ok [sibling; hostless].
Proof. repeat split; vm_compute; reflexivity. Qed.

(** The selector of the regression case is rejected from other working
    directories too. *)
Example climbing_rejected_elsewhere :
  map (fun cwd => GopherURL.valid cwd climbing)
      ["/"; "/etc"; "/srv/example.org"; "/home/user/example.org"]
  = [Ok false; Ok false; Ok false; Ok false].
Proof. vm_compute. reflexivity. Qed.

(** A resource with a plain selector is stored under its host. *)
Example plain_selector_contained :
  GopherURL.valid "/home/user" some_file = Ok true
  /\ contained "/home/user" "./archive/" some_file = true.
Proof. split; vm_compute; reflexivity. Qed.

(* ================================================================= *)
(** ** Re-use of persisted menus *)

(** C10. With the default options (no clobbering, archive directory
    [./archive/]) the menu that [write_gopherurl] has persisted is not
    found by [retrieve_menu_content], which looks for the storage path
    under the working directory: the menu is fetched again. *)
Theorem persisted_menu_is_fetched_again :
  let E := changing_env "first" "second" in
  write_gopherurl E default_config root_menu None home_world
  = Some (Ok tt, persisted_world)
  /\ slurp E (fs persisted_world) "./archive/example.org/gophermap"
     = Ok "first"
  /\ exists_ E (fs persisted_world) (GopherURL.to_file_path root_menu) = false
  /\ retrieve_menu_content E default_config root_menu persisted_world
     = Some (Ok (Some "second"),
             mkWorld 2 (fs persisted_world)
                     (trace persisted_world
                      ++ [EvSleep 0%Q; EvConnect "example.org" 70%Z "/"])%list).
Proof. repeat split; vm_compute; reflexivity. Qed.

(** With the archive directory set to the working directory the
    persisted menu is read back. *)
Lemma persisted_menu_reused_in_cwd :
  let E := changing_env "first" "second" in
  write_gopherurl E cwd_config root_menu None home_world
  = Some (Ok tt, persisted_in_cwd)
  /\ retrieve_menu_content E cwd_config root_menu persisted_in_cwd
     = Some (Ok (Some "first"),
             mkWorld 1 (fs persisted_in_cwd)
                     (trace persisted_in_cwd
                      ++ [EvSlurp "example.org/gophermap"])%list).
Proof. repeat split; vm_compute; reflexivity. Qed.

(* ================================================================= *)
(** ** Sets of resources *)

Section Sets.
Variable E : env.

Lemma same_elem_key (a b : GopherURL) :
  same_elem E a b = true <-> key E a = key E b.
Proof.
  unfold same_elem, key, GopherURL.__eq__.
  rewrite !andb_true_iff, Z.eqb_eq, !String.eqb_eq.
  split; [intros (-> & -> & ->); reflexivity|].
  intros H. injection H as -> -> ->. auto.
Qed.

Lemma set_mem_key (x : GopherURL) (s : list GopherURL) :
  set_mem E x s = true <-> In (key E x) (map (key E) s).
Proof.
  unfold set_mem. rewrite existsb_exists, in_map_iff.
  split; intros (y & H1 & H2).
  - exists y. split; [symmetry; now apply same_elem_key | exact H1].
  - exists y. split; [exact H2 | apply same_elem_key; now symmetry].
Qed.

Lemma set_mem_false (x : GopherURL) (s : list GopherURL) :
  set_mem E x s = false <-> ~ In (key E x) (map (key E) s).
Proof.
  rewrite <- set_mem_key. destruct (set_mem E x s); split; congruence.
Qed.

(** Menus with the same host and selector are the same element. *)
Lemma menus_same_key (a b : GopherURL) :
  GopherURL.is_menu a = true -> GopherURL.is_menu b = true ->
  GopherURL.__eq__ a b = true -> key E a = key E b.
Proof.
  intros Ha Hb He. unfold key.
  rewrite (hash_of_equal (str_hash E) a b He) by congruence.
  apply eq_iff_host_path in He as [-> ->]. reflexivity.
Qed.

Lemma key_eq (a b : GopherURL) :
  key E a = key E b -> GopherURL.__eq__ a b = true.
Proof.
  intros H. apply same_elem_key in H. unfold same_elem in H.
  now apply andb_true_iff in H.
Qed.

Lemma key_dec (a b : Z * string * string) : {a = b} + {a <> b}.
Proof.
  repeat decide equality; try apply Z.eq_dec; try apply string_dec.
Qed.

Lemma set_add_fresh (s : list GopherURL) (x : GopherURL) :
  ~ In (key E x) (map (key E) s) -> set_add E s x = (s ++ [x])%list.
Proof.
  intros H. unfold set_add. now rewrite (proj2 (set_mem_false x s) H).
Qed.

Lemma set_add_known (s : list GopherURL) (x : GopherURL) :
  In (key E x) (map (key E) s) -> set_add E s x = s.
Proof.
  intros H. unfold set_add. now rewrite (proj2 (set_mem_key x s) H).
Qed.

(** Updating a set with fresh, pairwise distinct elements appends
    them. *)
Lemma set_update_fresh (l : list GopherURL) :
  forall s,
    NoDup (map (key E) l) ->
    (forall y, In y l -> ~ In (key E y) (map (key E) s)) ->
    set_update E s l = (s ++ l)%list.
Proof.
  unfold set_update.
  induction l as [|x l IH]; intros s Hnd Hfresh; simpl.
  - now rewrite app_nil_r.
  - inversion Hnd as [|? ? Hx Hl]; subst.
    rewrite set_add_fresh by (apply Hfresh; now left).
    rewrite IH; [now rewrite <- app_assoc| exact Hl |].
    intros y Hy. rewrite map_app, in_app_iff. simpl.
    intros [H | [H | []]].
    + apply (Hfresh y); [now right | exact H].
    + apply Hx. rewrite H. now apply in_map.
Qed.

Lemma set_update_keys (l : list GopherURL) :
  forall s k,
    In k (map (key E) (set_update E s l))
    <-> In k (map (key E) s) \/ In k (map (key E) l).
Proof.
  unfold set_update.
  induction l as [|x l IH]; intros s k; simpl; [tauto|].
  rewrite IH.
  destruct (in_dec key_dec (key E x) (map (key E) s)) as [Hin | Hout].
  - rewrite (set_add_known s x Hin).
    split; [tauto|]. intros [H | [<- | H]]; auto.
  - rewrite (set_add_fresh s x Hout), map_app, in_app_iff. simpl. tauto.
Qed.

Lemma set_update_elements (l : list GopherURL) :
  forall s y, In y (set_update E s l) -> In y s \/ In y l.
Proof.
  unfold set_update.
  induction l as [|x l IH]; intros s y; simpl; [tauto|].
  intros H. apply IH in H as [H | H]; [|tauto].
  unfold set_add in H. destruct (set_mem E x s); [tauto|].
  apply in_app_iff in H as [H | [H | []]]; auto.
Qed.

Lemma set_update_nodup (l : list GopherURL) :
  forall s, NoDup (map (key E) s) -> NoDup (map (key E) (set_update E s l)).
Proof.
  unfold set_update.
  induction l as [|x l IH]; intros s Hs; simpl; [exact Hs|].
  apply IH. unfold set_add.
  destruct (set_mem E x s) eqn:Hm; [exact Hs|].
  rewrite map_app. apply NoDup_app; [exact Hs| |].
  - simpl. constructor; [tauto | constructor].
  - intros a Ha [<- | []]. now apply set_mem_false in Hm.
Qed.

Lemma set_of_nodup (l : list GopherURL) : NoDup (map (key E) (set_of E l)).
Proof. apply set_update_nodup. constructor. Qed.

Lemma set_of_keys (l : list GopherURL) (k : Z * string * string) :
  In k (map (key E) (set_of E l)) <-> In k (map (key E) l).
Proof. unfold set_of. rewrite set_update_keys. simpl. tauto. Qed.

Lemma set_of_elements (l : list GopherURL) (y : GopherURL) :
  In y (set_of E l) -> In y l.
Proof.
  intros H. apply set_update_elements in H as [[] | H]. exact H.
Qed.

(** A list without two same elements is its own set. *)
Lemma set_of_nodup_id (l : list GopherURL) :
  NoDup (map (key E) l) -> set_of E l = l.
Proof.
  intros H. unfold set_of. rewrite set_update_fresh; auto.
Qed.

Lemma nodup_keys_filter (f : GopherURL -> bool) (l : list GopherURL) :
  NoDup (map (key E) l) -> NoDup (map (key E) (filter f l)).
Proof.
  induction l as [|x l IH]; simpl; intros H; [constructor|].
  inversion H as [|? ? Hx Hl]; subst.
  destruct (f x); simpl; [|now apply IH].
  constructor; [|now apply IH].
  intros Hin. apply Hx. apply in_map_iff in Hin as (y & Hy & Hin).
  apply filter_In in Hin as [Hin _]. rewrite <- Hy. now apply in_map.
Qed.

Lemma nodup_keys_perm (l l' : list GopherURL) :
  Permutation l' l -> NoDup (map (key E) l) -> NoDup (map (key E) l').
Proof.
  intros Hp H. eapply Permutation_NoDup; [|exact H].
  apply Permutation_map. now apply Permutation_sym.
Qed.

Lemma set_difference_elements (a b : list GopherURL) (y : GopherURL) :
  In y (set_difference E a b)
  <-> In y a /\ ~ In (key E y) (map (key E) b).
Proof.
  unfold set_difference. rewrite filter_In, negb_true_iff, set_mem_false.
  tauto.
Qed.

(** At most one element of a list without two same elements
    satisfies a test that only same elements pass together. *)
Lemma at_most_one (f : GopherURL -> bool) (l : list GopherURL) :
  NoDup (map (key E) l) ->
  (forall x y, In x l -> In y l -> f x = true -> f y = true ->
               key E x = key E y) ->
  (List.length (filter f l) <= 1)%nat.
Proof.
  induction l as [|x l IH]; simpl; intros Hnd Hf; [lia|].
  inversion Hnd as [|? ? Hx Hl]; subst.
  destruct (f x) eqn:Fx; simpl.
  - assert (Hnone : filter f l = []).
    { destruct (filter f l) as [|y r] eqn:Fl; [reflexivity|].
      assert (Hy : In y (filter f l)) by (rewrite Fl; now left).
      apply filter_In in Hy as [Hy Fy]. exfalso. apply Hx.
      rewrite (Hf x y); auto. now apply in_map. }
    rewrite Hnone. simpl. lia.
  - apply IH; [exact Hl|]. intros a b Ha Hb. apply Hf; now right.
Qed.

(** An element of a set occurs in it once. *)
Lemma occurs_once (x : GopherURL) (s : list GopherURL) :
  NoDup (map (key E) s) -> In (key E x) (map (key E) s) ->
  occurrences E x s = 1%nat.
Proof.
  intros Hnd Hin. unfold occurrences.
  assert (Hle : (List.length (filter (same_elem E x) s) <= 1)%nat).
  { apply at_most_one; [exact Hnd|].
    intros a b _ _ Ha%same_elem_key Hb%same_elem_key. congruence. }
  apply in_map_iff in Hin as (y & Hk & Hy).
  assert (Hy' : In y (filter (same_elem E x) s)).
  { apply filter_In. split; [exact Hy|]. apply same_elem_key. now symmetry. }
  destruct (filter (same_elem E x) s); [destruct Hy'|]. simpl in *. lia.
Qed.

(** Merging what an expansion found into the visited set. *)
Lemma update_difference_keys (s l : list GopherURL) (k : Z * string * string) :
  In k (map (key E) (set_update E s (set_difference E (set_of E l) s)))
  <-> In k (map (key E) s) \/ In k (map (key E) l).
Proof.
  rewrite set_update_keys. split.
  - intros [H | H]; [now left | right].
    apply in_map_iff in H as (y & <- & Hy). apply in_map.
    apply set_difference_elements in Hy as [Hy _].
    now apply set_of_elements.
  - intros [H | H]; [now left|].
    destruct (in_dec key_dec k (map (key E) s)) as [Hin | Hout];
      [now left | right].
    apply set_of_keys in H. apply in_map_iff in H as (y & <- & Hy).
    apply in_map. apply set_difference_elements. now split.
Qed.

End Sets.

(* ================================================================= *)
(** ** What an expansion leaves in the world *)

Lemma calls_app {F : Type} (a b : list (event F)) :
  calls (a ++ b) = (calls a ++ calls b)%list.
Proof.
  induction a as [|ev a IH]; simpl; [reflexivity|].
  destruct ev; simpl; now rewrite IH.
Qed.

Lemma exits_app {F : Type} (a b : list (event F)) :
  exits (a ++ b) = (exits a ++ exits b)%list.
Proof.
  induction a as [|ev a IH]; simpl; [reflexivity|].
  destruct ev; simpl; now rewrite IH.
Qed.

Lemma discovered_app {F : Type} (a b : list (event F)) :
  discovered (a ++ b) = (discovered a ++ discovered b)%list.
Proof. unfold discovered. now rewrite exits_app, flat_map_app. Qed.

Section Effects.
Context {F : Type} {PF : PyFloat F}.
Variable E : env.
Variable config : Config F.
Variable root_gurl : GopherURL.

Lemma quiet_refl (w : world F) : quiet w w.
Proof. split; [reflexivity|]. exists []. now rewrite app_nil_r. Qed.

Lemma quiet_trans (w1 w2 w3 : world F) :
  quiet w1 w2 -> quiet w2 w3 -> quiet w1 w3.
Proof.
  intros (Hf1 & a1 & Ht1 & Hc1 & He1) (Hf2 & a2 & Ht2 & Hc2 & He2).
  split; [congruence|]. exists (a1 ++ a2)%list.
  rewrite Ht2, Ht1, <- app_assoc, calls_app, exits_app, Hc1, Hc2, He1, He2.
  auto.
Qed.

Lemma download_loop_quiet (self : GopherURL) (fuel : nat) :
  forall retries d w res w',
    download_loop E self fuel retries d w = Some (res, w') -> quiet w w'.
Proof.
  induction fuel as [|fuel IH]; intros retries d w res w'; simpl;
    [discriminate|].
  unfold mbind, sleep, throw, emit, attempt.
  destruct (sleep_ok d).
  - simpl.
    set (w1 := mkWorld (S (clock w)) (fs w)
                 ((trace w ++ [EvSleep d])
                  ++ [EvConnect (host self) (port self) (path self)])%list).
    assert (Hq : quiet w w1).
    { split; [reflexivity|].
      exists [EvSleep d; EvConnect (host self) (port self) (path self)].
      unfold w1. simpl. now rewrite <- app_assoc. }
    destruct (net E (clock w) (host self) (port self) (path self)) as [b|e].
    + intros H. injection H as _ <-. exact Hq.
    + destruct (is_retried e).
      * destruct (3 <? S retries)%nat.
        -- intros H. injection H as _ <-. exact Hq.
        -- intros H. apply IH in H. eapply quiet_trans; eauto.
      * intros H. injection H as _ <-. exact Hq.
  - intros H. injection H as _ <-. apply quiet_refl.
Qed.

Lemma retrieve_menu_content_quiet (g : GopherURL) (w : world F)
      (res : result (option string)) (w' : world F) :
  retrieve_menu_content E config g w = Some (res, w') -> quiet w w'.
Proof.
  unfold retrieve_menu_content.
  destruct (exists_ E (fs w) (GopherURL.to_file_path g)
            && negb (clobber config)).
  - assert (Hq : quiet w (mkWorld (clock w) (fs w)
                   (trace w ++ [EvSlurp (GopherURL.to_file_path g)])%list)).
    { split; [reflexivity|]. eexists. split; [reflexivity|]. auto. }
    destruct (slurp E (fs w) (GopherURL.to_file_path g));
      intros H; injection H as _ <-; exact Hq.
  - destruct (download E g (delay config) w) as [[r w1]|] eqn:D;
      [|discriminate].
    apply download_loop_quiet in D.
    destruct r as [[c|]|e]; try destruct (caught_by_retrieve e);
      intros H; injection H as _ <-; exact D.
Qed.

(** An expansion keeps the files and writes one CALL record, and one
    EXIT record with what it returns when it returns. *)
Lemma expansion_effect (g : GopherURL) (w : world F)
      (res : result (list GopherURL)) (w' : world F) :
  gopher_urls_from_menu_link E config root_gurl g w = Some (res, w') ->
  fs w' = fs w
  /\ exists added,
      trace w' = (trace w ++ added)%list
      /\ calls added = [g]
      /\ exits added = match res with
                       | Ok gurls => [(g, gurls)]
                       | Raise _ => []
                       end.
Proof.
  unfold gopher_urls_from_menu_link, mbind at 1, emit at 1.
  set (w0 := mkWorld (clock w) (fs w) (trace w ++ [EvCall g])%list).
  unfold mbind at 1.
  destruct (retrieve_menu_content E config g w0) as [[r w1]|] eqn:R;
    [|discriminate].
  apply retrieve_menu_content_quiet in R.
  destruct R as (Hf & a & Ht & Hc & He). unfold w0 in Hf, Ht. simpl in *.
  assert (Hraise :
            fs w1 = fs w
            /\ exists added, trace w1 = (trace w ++ added)%list
                             /\ calls added = [g] /\ exits added = []).
  { split; [exact Hf|]. exists (EvCall g :: a). rewrite Ht, <- app_assoc.
    simpl. rewrite Hc, He. auto. }
  assert (Hreturn :
            forall gurls,
              fs w1 = fs w
              /\ exists added,
                  (trace w1 ++ [EvExit g gurls])%list = (trace w ++ added)%list
                  /\ calls added = [g] /\ exits added = [(g, gurls)]).
  { intros gurls. split; [exact Hf|].
    exists (EvCall g :: a ++ [EvExit g gurls])%list.
    rewrite Ht, <- !app_assoc. simpl.
    rewrite calls_app, exits_app, Hc, He. auto. }
  destruct r as [[content|]|e]; simpl.
  - unfold mbind, lift, ret, emit.
    destruct (getlinks (cwd E) content) as [gurls|e]; simpl.
    + intros H. injection H as <- <-. simpl. apply Hreturn.
    + intros H. injection H as <- <-. exact Hraise.
  - unfold mbind, ret, emit. intros H. injection H as <- <-. simpl.
    apply Hreturn.
  - intros H. injection H as <- <-. exact Hraise.
Qed.

(** An expansion never runs out of fuel. *)
Lemma expansion_total (g : GopherURL) (w : world F) :
  gopher_urls_from_menu_link E config root_gurl g w <> None.
Proof.
  unfold gopher_urls_from_menu_link, mbind at 1, emit at 1.
  set (w0 := mkWorld (clock w) (fs w) (trace w ++ [EvCall g])%list).
  unfold mbind at 1.
  assert (R : retrieve_menu_content E config g w0 <> None).
  { unfold retrieve_menu_content.
    destruct (_ && _); [destruct (slurp _ _ _); discriminate|].
    pose proof (download_total E g (delay config) w0) as D.
    destruct (download E g (delay config) w0) as [[[[c|]|e] w1]|];
      try destruct (caught_by_retrieve e); congruence. }
  destruct (retrieve_menu_content E config g w0) as [[r w1]|];
    [|congruence].
  destruct r as [[content|]|e]; simpl; try discriminate.
  unfold mbind, lift, ret, emit.
  destruct (getlinks (cwd E) content); discriminate.
Qed.

End Effects.

(* ================================================================= *)
(** ** The traversal *)

Lemma skipn_nth_error {A : Type} (l : list A) (i : nat) (x : A) :
  nth_error l i = Some x -> skipn i l = x :: skipn (S i) l.
Proof.
  revert i. induction l as [|a l IH]; intros [|i] H; simpl in *;
    try discriminate.
  - now injection H as ->.
  - now apply IH.
Qed.

Lemma filter_firstn_length {A : Type} (f : A -> bool) (n : nat) (l : list A) :
  (List.length (filter f (firstn n l)) <= List.length (filter f l))%nat.
Proof.
  rewrite <- (firstn_skipn n l) at 2. rewrite filter_app, length_app. lia.
Qed.

Section Traversal.
Context {F : Type} {PF : PyFloat F}.
Variable E : env.
Hypothesis HE : env_ok E.
Variable config : Config F.
Variable root_gurl : GopherURL.

Lemma worklist_step (pre post gurls links : list GopherURL) (n : nat) :
  worklist_inv E pre post gurls ->
  let new_unique_gurls := set_difference E (set_of E links) gurls in
  let gurls' := set_update E gurls new_unique_gurls in
  let new_menus := get_menus (iter_order E n new_unique_gurls) in
  worklist_inv E pre (post ++ new_menus) gurls'
  /\ gurls' = (gurls ++ new_unique_gurls)%list
  /\ (forall k, In k (map (key E) gurls')
                <-> In k (map (key E) gurls) \/ In k (map (key E) links))
  /\ (forall x, In x new_unique_gurls -> In x links).
Proof.
  intros (Hg & Hm & Hiff) nu gurls' nm.
  assert (Hnu_nd : NoDup (map (key E) nu)).
  { apply nodup_keys_filter, set_of_nodup. }
  assert (Hnu_el : forall y, In y nu ->
                             In y links /\ ~ In (key E y) (map (key E) gurls)).
  { intros y Hy. apply set_difference_elements in Hy as [Hy Hf].
    split; [now apply set_of_elements in Hy | exact Hf]. }
  assert (Heq : gurls' = (gurls ++ nu)%list).
  { apply set_update_fresh; [exact Hnu_nd|]. intros y Hy.
    now apply Hnu_el. }
  assert (Hnm_el : forall y, In y nm <-> In y nu /\ GopherURL.is_menu y = true).
  { intros y. unfold nm, get_menus. rewrite filter_In.
    split; intros [H1 H2]; (split; [|exact H2]).
    - eapply Permutation_in; [apply HE | exact H1].
    - eapply Permutation_in; [apply Permutation_sym, HE | exact H1]. }
  assert (Hnm_nd : NoDup (map (key E) nm)).
  { apply nodup_keys_filter. eapply nodup_keys_perm; [apply HE | exact Hnu_nd]. }
  split; [|split; [exact Heq | split]].
  - rewrite Heq. split; [|split].
    + rewrite map_app. apply NoDup_app; [exact Hg | exact Hnu_nd |].
      intros a Ha Hb. apply in_map_iff in Hb as (y & <- & Hy).
      now apply (proj2 (Hnu_el y Hy)).
    + rewrite app_assoc, map_app. apply NoDup_app; [exact Hm | exact Hnm_nd |].
      intros a Ha Hb.
      apply in_map_iff in Ha as (m & <- & Hin).
      apply in_map_iff in Hb as (y & Hk & Hy).
      apply Hiff in Hin as [Hin _]. apply Hnm_el in Hy as [Hy _].
      apply (proj2 (Hnu_el y Hy)). rewrite Hk. now apply in_map.
    + intros m. rewrite app_assoc, in_app_iff, Hiff, Hnm_el, in_app_iff.
      tauto.
  - intros k. rewrite Heq, map_app, in_app_iff. split.
    + intros [H | H]; [now left | right].
      apply in_map_iff in H as (y & <- & Hy). apply in_map.
      now apply Hnu_el.
    + intros [H | H]; [now left|].
      destruct (in_dec (key_dec) k (map (key E) gurls)) as [Hin | Hout];
        [now left | right].
      apply set_of_keys in H. apply in_map_iff in H as (y & <- & Hy).
      apply in_map. apply set_difference_elements. now split.
  - intros x Hx. now apply Hnu_el.
Qed.

(** Whatever the outcome of the loop, it has expanded entries of the
    final worklist in their order from position [i] on, and what it
    returns is the set it was given plus what the expansions found. *)
Lemma crawl_loop_sound (pre : list GopherURL) (fuel : nat) :
  forall i post gurls depth w r w',
    worklist_inv E pre post gurls ->
    crawl_loop E config root_gurl fuel i (pre ++ root_gurl :: post)%list
               gurls depth w = Some (r, w') ->
    exists post' added n final,
      trace w' = (trace w ++ added)%list
      /\ fs w' = fs w
      /\ calls added
         = firstn n (skipn i (pre ++ root_gurl :: post ++ post')%list)
      /\ worklist_inv E pre (post ++ post') final
      /\ (forall res, r = Ok res ->
            res = final
            /\ forall k, In k (map (key E) res)
                         <-> In k (map (key E) gurls)
                             \/ In k (map (key E) (discovered added))).
Proof.
  induction fuel as [|fuel IH]; intros i post gurls depth w r w' Hinv;
    simpl; [discriminate|].
  assert (Hstop : ret gurls w = Some (r, w') ->
            exists post' added n final,
              trace w' = (trace w ++ added)%list
              /\ fs w' = fs w
              /\ calls added
                 = firstn n (skipn i (pre ++ root_gurl :: post ++ post')%list)
              /\ worklist_inv E pre (post ++ post') final
              /\ (forall res, r = Ok res ->
                    res = final
                    /\ forall k, In k (map (key E) res)
                                 <-> In k (map (key E) gurls)
                                     \/ In k (map (key E) (discovered added)))).
  { unfold ret. intros H. injection H as <- <-.
    exists [], [], 0%nat, gurls. rewrite !app_nil_r.
    split; [reflexivity|]. split; [reflexivity|]. split; [reflexivity|].
    split; [exact Hinv|].
    intros res H. injection H as <-. split; [reflexivity|].
    intros k. simpl. tauto. }
  destruct (nth_error (pre ++ root_gurl :: post) i) as [menu|] eqn:N;
    [|exact Hstop].
  destruct (depth_exceeded config depth); [exact Hstop|]. clear Hstop.
  unfold mbind.
  destruct (gopher_urls_from_menu_link E config root_gurl menu w)
    as [[[links|e] w1]|] eqn:X; [| |discriminate].
  - apply expansion_effect in X as (Hfs1 & a1 & Ht1 & Hc1 & He1).
    pose proof (worklist_step pre post gurls links (S (S i)) Hinv)
      as (Hinv' & Heq & Hkeys & _).
    cbv zeta in Hinv', Heq, Hkeys.
    rewrite <- app_assoc. simpl app.
    intros H. apply IH in H; [|exact Hinv'].
    destruct H as (post' & a2 & n & final & Ht2 & Hfs2 & Hc2 & Hfin & Hres).
    set (nm := get_menus
                 (iter_order E (S (S i))
                    (set_difference E (set_of E links) gurls))) in *.
    exists (nm ++ post')%list, (a1 ++ a2)%list, (S n), final.
    replace (post ++ nm ++ post')%list with ((post ++ nm) ++ post')%list
      by (now rewrite app_assoc).
    split; [rewrite Ht2, Ht1; now rewrite <- app_assoc|].
    split; [congruence|].
    split; [|split; [exact Hfin|]].
    + rewrite calls_app, Hc1, Hc2.
      rewrite (skipn_nth_error _ i menu); [reflexivity|].
      assert (HL : (pre ++ root_gurl :: (post ++ nm) ++ post')%list
                   = ((pre ++ root_gurl :: post) ++ nm ++ post')%list).
      { rewrite <- !app_assoc. reflexivity. }
      rewrite HL, nth_error_app1; [exact N|].
      apply nth_error_Some. congruence.
    + intros res Hr. destruct (Hres res Hr) as [-> Hk]. split; [reflexivity|].
      intros k. rewrite Hk, Hkeys, discovered_app, map_app, in_app_iff.
      unfold discovered at 2. rewrite He1. simpl. rewrite app_nil_r. tauto.
  - apply expansion_effect in X as (Hfs1 & a1 & Ht1 & Hc1 & He1).
    intros H. injection H as <- <-.
    exists [], a1, 1%nat, gurls. rewrite !app_nil_r.
    split; [exact Ht1|]. split; [exact Hfs1|].
    split; [|split; [exact Hinv|discriminate]].
    rewrite Hc1, (skipn_nth_error _ i menu N). reflexivity.
Qed.

Lemma worklist_init (links : list GopherURL) :
  let gurls := set_of E links in
  worklist_inv E
    (iter_order E 1 (set_of E (get_menus (iter_order E 0 gurls)))) [] gurls.
Proof.
  intros gurls.
  assert (Hg : NoDup (map (key E) gurls)) by apply set_of_nodup.
  assert (Hm : NoDup (map (key E) (get_menus (iter_order E 0 gurls)))).
  { apply nodup_keys_filter. eapply nodup_keys_perm; [apply HE | exact Hg]. }
  unfold worklist_inv. rewrite (set_of_nodup_id E _ Hm), app_nil_r.
  split; [exact Hg|]. split.
  - eapply nodup_keys_perm; [apply HE | exact Hm].
  - intros m. unfold get_menus. split.
    + intros H. apply (Permutation_in _ (HE _ _)) in H.
      apply filter_In in H as [H Hmenu]. split; [|exact Hmenu].
      exact (Permutation_in _ (HE _ _) H).
    + intros [H Hmenu].
      apply (Permutation_in _ (Permutation_sym (HE _ _))).
      apply filter_In. split; [|exact Hmenu].
      exact (Permutation_in _ (Permutation_sym (HE _ _)) H).
Qed.

(** A run of [crawl] expands the root, then entries of the worklist
    in their order; what it returns is what the expansions found. *)
Lemma crawl_sound (fuel : nat) (w : world F)
      (r : result (list GopherURL)) (w' : world F) :
  crawl E config root_gurl fuel w = Some (r, w') ->
  exists added pre post n final,
    trace w' = (trace w ++ added)%list
    /\ fs w' = fs w
    /\ calls added = root_gurl :: firstn n (pre ++ root_gurl :: post)%list
    /\ worklist_inv E pre post final
    /\ (forall res, r = Ok res ->
          res = final
          /\ forall k, In k (map (key E) res)
                       <-> In k (map (key E) (discovered added))).
Proof.
  unfold crawl, mbind.
  destruct (gopher_urls_from_menu_link E config root_gurl root_gurl w)
    as [[[links|e] w1]|] eqn:X; [| |discriminate].
  - apply expansion_effect in X as (Hfs1 & a1 & Ht1 & Hc1 & He1).
    intros H.
    apply (crawl_loop_sound _ _ _ [] _ _ _ _ _ (worklist_init links)) in H.
    destruct H as (post' & a2 & n & final & Ht2 & Hfs2 & Hc2 & Hfin & Hres).
    simpl in Hc2, Hfin.
    eexists (a1 ++ a2)%list, _, post', n, final.
    split; [rewrite Ht2, Ht1; now rewrite <- app_assoc|].
    split; [congruence|].
    split; [rewrite calls_app, Hc1, Hc2; reflexivity|].
    split; [exact Hfin|].
    intros res Hr. destruct (Hres res Hr) as [-> Hk]. split; [reflexivity|].
    intros k. rewrite Hk, set_of_keys, discovered_app, map_app, in_app_iff.
    unfold discovered at 2. rewrite He1. simpl. rewrite app_nil_r. tauto.
  - apply expansion_effect in X as (Hfs1 & a1 & Ht1 & Hc1 & He1).
    intros H. injection H as <- <-.
    exists a1, [], [], 0%nat, [].
    split; [exact Ht1|]. split; [exact Hfs1|].
    split; [rewrite Hc1; reflexivity|].
    split; [|discriminate].
    split; [constructor|]. split; [constructor|].
    intros m. simpl. tauto.
Qed.

Lemma eq_sym_trans (g x y : GopherURL) :
  GopherURL.__eq__ g x = true -> GopherURL.__eq__ g y = true ->
  GopherURL.__eq__ x y = true.
Proof.
  rewrite !eq_iff_host_path. intros [-> ->] [-> ->]. auto.
Qed.

(** C2, as the code has it. A run of [crawl] expands the root and then
    entries of the worklist, each position once and in order; every
    resource other than the root is expanded at most once. The root,
    which is put on the worklist without being put in the visited set,
    is expanded before the loop, again at its entry of the worklist,
    and once more if a menu lists it: at most three times. *)
Theorem expanded_once_but_for_root
        (fuel : nat) (w : world F) (r : result (list GopherURL))
        (w' : world F) :
  crawl E config root_gurl fuel w = Some (r, w') ->
  exists added,
    trace w' = (trace w ++ added)%list
    /\ (exists worklist n,
          calls added = root_gurl :: firstn n worklist)
    /\ (forall g, GopherURL.__eq__ g root_gurl = false ->
                  (expansions_of g added <= 1)%nat)
    /\ (expansions_of root_gurl added <= 3)%nat.
Proof.
  intros H. apply crawl_sound in H.
  destruct H as (added & pre & post & n & final & Ht & _ & Hc & Hinv & _).
  destruct Hinv as (_ & Hnd & Hiff).
  exists added. split; [exact Ht|].
  split; [now exists (pre ++ root_gurl :: post)%list, n|].
  assert (Hone : forall g,
             (List.length (filter (GopherURL.__eq__ g) (pre ++ post))
              <= 1)%nat).
  { intros g. apply (at_most_one E); [exact Hnd|].
    intros x y Hx Hy Fx Fy.
    apply Hiff in Hx as [_ Hx]. apply Hiff in Hy as [_ Hy].
    apply menus_same_key; auto. eapply eq_sym_trans; eauto. }
  assert (Hcount : forall g,
             (expansions_of g added
              <= (if GopherURL.__eq__ g root_gurl then 2 else 0)
                 + List.length (filter (GopherURL.__eq__ g) (pre ++ post)))%nat).
  { intros g. unfold expansions_of. rewrite Hc. simpl.
    pose proof (filter_firstn_length (GopherURL.__eq__ g) n
                  (pre ++ root_gurl :: post)) as Hle.
    rewrite filter_app in Hle. simpl in Hle.
    rewrite filter_app, length_app.
    rewrite length_app in Hle.
    destruct (GopherURL.__eq__ g root_gurl); simpl in *; lia. }
  split.
  - intros g Hg. specialize (Hcount g). rewrite Hg in Hcount.
    specialize (Hone g). lia.
  - specialize (Hcount root_gurl). specialize (Hone root_gurl).
    destruct (GopherURL.__eq__ root_gurl root_gurl); lia.
Qed.

Lemma listed_in_keys (a b : list GopherURL) (x : GopherURL) :
  (forall k, In k (map (key E) a) -> In k (map (key E) b)) ->
  listed_in x a = true -> listed_in x b = true.
Proof.
  intros Hk H. unfold listed_in in *.
  apply existsb_exists in H as (y & Hy & Hxy).
  assert (Hin : In (key E y) (map (key E) b)) by now apply Hk, in_map.
  apply in_map_iff in Hin as (z & Hz & Hzb).
  apply existsb_exists. exists z. split; [exact Hzb|].
  apply key_eq in Hz. apply eq_iff_host_path in Hz as [Hh Hp].
  apply eq_iff_host_path in Hxy as [Hh' Hp'].
  apply eq_iff_host_path. split; congruence.
Qed.

(** C4, as the code has it. The set that [crawl] returns holds the
    resources that the expansions of the run returned, and nothing
    else: a host and selector is in the result exactly when some
    expansion returned it. The visited set is seeded with the children
    of the root alone: the root is in the result exactly when an
    expanded menu lists it. *)
Theorem crawl_returns_what_was_found
        (fuel : nat) (w : world F) (res : list GopherURL) (w' : world F) :
  crawl E config root_gurl fuel w = Some (Ok res, w') ->
  exists added,
    trace w' = (trace w ++ added)%list
    /\ (forall x, listed_in x res = true
                  <-> listed_in x (discovered added) = true)
    /\ (listed_in root_gurl res = true
        <-> exists menu gurls, In (menu, gurls) (exits added)
                               /\ listed_in root_gurl gurls = true).
Proof.
  intros H. apply crawl_sound in H.
  destruct H as (added & pre & post & n & final & Ht & _ & _ & Hinv & Hres).
  destruct (Hres res eq_refl) as [-> Hk].
  exists added. split; [exact Ht|].
  assert (Hmem : forall x, listed_in x final = true
                           <-> listed_in x (discovered added) = true).
  { intros x. split; apply listed_in_keys; intros k; apply Hk. }
  split; [exact Hmem|].
  rewrite Hmem. unfold discovered. unfold listed_in at 1.
  rewrite existsb_exists. split.
  - intros (y & Hy & Hs). apply in_flat_map in Hy as ([menu gurls] & Hin & Hy).
    exists menu, gurls. split; [exact Hin|].
    unfold listed_in. apply existsb_exists. now exists y.
  - intros (menu & gurls & Hin & Hs).
    unfold listed_in in Hs. apply existsb_exists in Hs as (y & Hy & Hs).
    exists y. split; [|exact Hs].
    apply in_flat_map. now exists (menu, gurls).
Qed.

Lemma crawl_loop_eq (fuel i : nat) (menus gurls : list GopherURL) (depth : Z) :
  crawl_loop E config root_gurl (S fuel) i menus gurls depth
  = match nth_error menus i with
    | None => ret gurls
    | Some menu =>
        if depth_exceeded config depth then ret gurls
        else
          links <~ gopher_urls_from_menu_link E config root_gurl menu ;;
          crawl_loop E config root_gurl fuel (S i)
            (menus
             ++ get_menus
                  (iter_order E (S (S i))
                     (set_difference E (set_of E links) gurls)))%list
            (set_update E gurls (set_difference E (set_of E links) gurls))
            (depth + 1)%Z
    end.
Proof. reflexivity. Qed.

(** C3, as the code has it. With [maxdepth = 0] the loop runs once:
    after the root, [crawl] expands the first entry of the worklist
    (a child menu if there is one, the root again if not) and then
    stops; it returns the children of the root together with what
    that one expansion found. *)
Theorem crawl_maxdepth_zero (fuel : nat) (w : world F) :
  maxdepth config = Some 0%Z ->
  (2 <= fuel)%nat ->
  exists r w' added,
    crawl E config root_gurl fuel w = Some (r, w')
    /\ trace w' = (trace w ++ added)%list
    /\ (List.length (calls added) <= 2)%nat
    /\ forall res, r = Ok res ->
         exists children menu found,
           exits added = [(root_gurl, children); (menu, found)]
           /\ hd_error (initial_worklist E root_gurl children) = Some menu
           /\ forall x, set_mem E x res
                        = set_mem E x children || set_mem E x found.
Proof.
  intros Hmax Hfuel. destruct fuel as [|[|fuel]]; try lia.
  unfold crawl, mbind.
  pose proof (expansion_total E config root_gurl root_gurl w) as T0.
  destruct (gopher_urls_from_menu_link E config root_gurl root_gurl w)
    as [[[children|e] w1]|] eqn:X0; [| |congruence].
  2:{ apply expansion_effect in X0 as (_ & a0 & Ht0 & Hc0 & _).
      exists (Raise e), w1, a0. split; [reflexivity|].
      split; [exact Ht0|]. split; [rewrite Hc0; simpl; lia | discriminate]. }
  apply expansion_effect in X0 as (_ & a0 & Ht0 & Hc0 & He0).
  fold (initial_worklist E root_gurl children).
  destruct (initial_worklist E root_gurl children) as [|menu rest] eqn:W.
  { unfold initial_worklist in W. now apply app_eq_nil in W as [_ W]. }
  rewrite crawl_loop_eq.
  change (nth_error (menu :: rest) 0) with (Some menu).
  unfold depth_exceeded at 1. rewrite Hmax.
  change (0 <? 0)%Z with false. unfold mbind. cbv beta iota.
  pose proof (expansion_total E config root_gurl menu w1) as T1.
  destruct (gopher_urls_from_menu_link E config root_gurl menu w1)
    as [[[found|e] w2]|] eqn:X1; [| |congruence].
  2:{ apply expansion_effect in X1 as (_ & a1 & Ht1 & Hc1 & _).
      exists (Raise e), w2, (a0 ++ a1)%list. split; [reflexivity|].
      split; [rewrite Ht1, Ht0; now rewrite <- app_assoc|].
      split; [rewrite calls_app, Hc0, Hc1; simpl; lia | discriminate]. }
  apply expansion_effect in X1 as (_ & a1 & Ht1 & Hc1 & He1).
  set (gurls' := set_update E (set_of E children)
                   (set_difference E (set_of E found) (set_of E children))).
  exists (Ok gurls'), w2, (a0 ++ a1)%list.
  split.
  - rewrite crawl_loop_eq.
    destruct (nth_error _ 1); [|reflexivity].
    unfold depth_exceeded. rewrite Hmax. reflexivity.
  - split; [rewrite Ht1, Ht0; now rewrite <- app_assoc|].
    split; [rewrite calls_app, Hc0, Hc1; simpl; lia|].
    intros res Hr. injection Hr as <-.
    exists children, menu, found.
    split; [rewrite exits_app, He0, He1; reflexivity|].
    split; [now rewrite W|].
    intros x. apply eq_true_iff_eq.
    rewrite orb_true_iff, !set_mem_key. unfold gurls'.
    rewrite update_difference_keys, set_of_keys. tauto.
Qed.

End Traversal.

(* ================================================================= *)
(** ** Finite menu graphs *)

Section MenuGraph.
Context {F : Type} {PF : PyFloat F}.
Variable E : env.
Hypothesis HE : env_ok E.
Variable config : Config F.
Variable root_gurl : GopherURL.

(** The graph: what the expansion of a menu returns, whenever it is
    asked, for the root and for the finitely many resources [U] that
    the menus list. *)
Variable links : GopherURL -> list GopherURL.
Variable U : list GopherURL.
Variable fs0 : filesystem.

Hypothesis Hserved :
  forall g w, graph_node root_gurl U g -> fs w = fs0 ->
    exists w', gopher_urls_from_menu_link E config root_gurl g w
               = Some (Ok (links g), w').
Hypothesis Hfinite : forall g x, graph_node root_gurl U g -> In x (links g) -> In x U.
Hypothesis Hunbounded : maxdepth config = None.

Lemma worklist_bounded (pre post gurls : list GopherURL) :
  worklist_inv E pre post gurls ->
  (forall x, In x gurls -> In x U) ->
  (List.length (pre ++ root_gurl :: post) <= S (List.length U))%nat.
Proof.
  intros (_ & Hnd & Hiff) HU.
  assert (Hle : (List.length (map (key E) (pre ++ post))
                 <= List.length (map (key E) U))%nat).
  { apply NoDup_incl_length; [exact Hnd|].
    intros k Hk. apply in_map_iff in Hk as (m & <- & Hm).
    apply in_map, HU. now apply Hiff in Hm. }
  rewrite !length_map in Hle. rewrite length_app in *. simpl. lia.
Qed.

(** With no bound on the depth the loop comes to the end of the
    worklist, and the set it returns holds whatever the entries it
    went through list. *)
Lemma crawl_loop_static (pre : list GopherURL) (fuel : nat) :
  forall i post gurls depth w,
    worklist_inv E pre post gurls ->
    (forall x, In x gurls -> In x U) ->
    fs w = fs0 ->
    (i <= List.length (pre ++ root_gurl :: post))%nat ->
    (List.length U + 2 <= fuel + i)%nat ->
    exists res w' post',
      crawl_loop E config root_gurl fuel i (pre ++ root_gurl :: post)%list
                 gurls depth w = Some (Ok res, w')
      /\ worklist_inv E pre (post ++ post') res
      /\ (forall x, In x res -> In x U)
      /\ (forall k, In k (map (key E) gurls) -> In k (map (key E) res))
      /\ (forall m, In m (skipn i (pre ++ root_gurl :: post ++ post')%list) ->
            forall x, In x (links m) -> In (key E x) (map (key E) res)).
Proof.
  induction fuel as [|fuel IH]; intros i post gurls depth w Hinv HU Hfs Hi Hf.
  { pose proof (worklist_bounded _ _ _ Hinv HU). lia. }
  rewrite crawl_loop_eq.
  destruct (nth_error (pre ++ root_gurl :: post) i) as [menu|] eqn:N.
  - unfold depth_exceeded. rewrite Hunbounded. unfold mbind.
    assert (Hnode : graph_node root_gurl U menu).
    { apply nth_error_In in N. apply in_app_iff in N as [N | [N | N]].
      - right. apply HU. apply (proj1 (proj2 (proj2 Hinv) menu)).
        apply in_app_iff. now left.
      - left. now symmetry.
      - right. apply HU. apply (proj1 (proj2 (proj2 Hinv) menu)).
        apply in_app_iff. now right. }
    destruct (Hserved menu w Hnode Hfs) as (w1 & X). rewrite X.
    apply expansion_effect in X as (Hfs1 & _).
    pose proof (worklist_step E HE pre post gurls (links menu) (S (S i)) Hinv)
      as (Hinv' & Heq & Hkeys & Hnu).
    cbv zeta in Hinv', Heq, Hkeys, Hnu.
    set (nm := get_menus
                 (iter_order E (S (S i))
                    (set_difference E (set_of E (links menu)) gurls))) in *.
    set (gurls' := set_update E gurls
                     (set_difference E (set_of E (links menu)) gurls)) in *.
    assert (Hlt : (i < List.length (pre ++ root_gurl :: post))%nat)
      by (apply nth_error_Some; congruence).
    assert (HL : forall post',
               (pre ++ root_gurl :: (post ++ nm) ++ post')%list
               = ((pre ++ root_gurl :: post) ++ nm ++ post')%list).
    { intros post'. rewrite <- !app_assoc. reflexivity. }
    destruct (IH (S i) (post ++ nm)%list gurls' (depth + 1)%Z w1)
      as (res & w' & post' & Hrun & Hfin & HresU & Hsub & Hclosed).
    + exact Hinv'.
    + intros x Hx. rewrite Heq in Hx. apply in_app_iff in Hx as [Hx | Hx].
      * now apply HU.
      * apply (Hfinite menu); [exact Hnode | now apply Hnu].
    + congruence.
    + specialize (HL []). rewrite app_nil_r in HL.
      replace (pre ++ root_gurl :: post ++ nm)%list
        with ((pre ++ root_gurl :: post) ++ nm)%list.
      * rewrite length_app. lia.
      * rewrite <- app_assoc. reflexivity.
    + lia.
    + exists res, w', (nm ++ post')%list.
      replace (post ++ nm ++ post')%list with ((post ++ nm) ++ post')%list
        by (now rewrite app_assoc).
      split.
      { rewrite <- Hrun. f_equal. rewrite <- app_assoc. reflexivity. }
      split; [exact Hfin|]. split; [exact HresU|]. split.
      { intros k Hk. apply Hsub, Hkeys. now left. }
      intros m Hm x Hx.
      rewrite (skipn_nth_error _ i menu) in Hm
        by (rewrite HL, nth_error_app1; [exact N | exact Hlt]).
      destruct Hm as [<- | Hm].
      * apply Hsub, Hkeys. right. now apply in_map.
      * now apply (Hclosed m).
  - exists gurls, w, []. rewrite !app_nil_r.
    split; [reflexivity|]. split; [exact Hinv|]. split; [exact HU|].
    split; [auto|].
    apply nth_error_None in N. rewrite (skipn_all2 _ N).
    intros m [].
Qed.

(** The graph is one of resources, not of listings: a host and
    selector is listed under one kind only, menu or not, and listings
    that are the same element of a set list the same resources. *)
Hypothesis Hkinds :
  forall x y, In x U -> In y U -> GopherURL.__eq__ x y = true ->
              GopherURL.is_menu x = GopherURL.is_menu y.
Hypothesis Hsame :
  forall x y, In x U -> In y U -> key E x = key E y -> links x = links y.

(** With no bound on the depth [crawl] returns, given fuel for one
    step more than the graph has resources, and what it returns holds
    every resource that can be reached. *)
Lemma crawl_static (fuel : nat) (w : world F) :
  fs w = fs0 ->
  (List.length U + 2 <= fuel)%nat ->
  exists res w',
    crawl E config root_gurl fuel w = Some (Ok res, w')
    /\ NoDup (map (key E) res)
    /\ (forall x, In x res -> In x U)
    /\ forall x, listed root_gurl links x -> In (key E x) (map (key E) res).
Proof.
  intros Hfs Hfuel. unfold crawl, mbind.
  destruct (Hserved root_gurl w (or_introl eq_refl) Hfs) as (w1 & X).
  rewrite X. apply expansion_effect in X as (Hfs1 & _).
  pose proof (worklist_init E HE (links root_gurl)) as Hinit.
  cbv zeta in Hinit.
  set (gurls := set_of E (links root_gurl)) in *.
  set (pre := iter_order E 1 (set_of E (get_menus (iter_order E 0 gurls))))
    in *.
  assert (HU : forall x, In x gurls -> In x U).
  { intros x Hx. apply (Hfinite root_gurl); [now left|].
    now apply set_of_elements in Hx. }
  destruct (crawl_loop_static pre fuel 0 [] gurls 0%Z w1 Hinit HU)
    as (res & w' & post' & Hrun & Hfin & HresU & Hsub & Hclosed);
    [congruence | lia | lia |].
  exists res, w'. split; [exact Hrun|].
  split; [apply Hfin|]. split; [exact HresU|].
  assert (Hall : forall x, listed root_gurl links x ->
                           In x U /\ In (key E x) (map (key E) res)).
  { induction 1 as [x Hx | m x Hm [HmU Hmres] Hmenu Hx].
    - split; [apply (Hfinite root_gurl); [now left | exact Hx]|].
      apply Hsub, set_of_keys. now apply in_map.
    - split; [apply (Hfinite m); [now right | exact Hx]|].
      apply in_map_iff in Hmres as (m' & Hk & Hm').
      assert (Hm'U : In m' U) by now apply HresU.
      assert (Hm'menu : GopherURL.is_menu m' = true).
      { now rewrite (Hkinds m' m Hm'U HmU (key_eq E _ _ Hk)). }
      apply (Hclosed m').
      + simpl. destruct Hfin as (_ & _ & Hiff).
        assert (Hin : In m' (pre ++ post')) by now apply Hiff.
        apply in_app_iff in Hin as [Hin | Hin]; apply in_app_iff;
          [now left | right; now right].
      + now rewrite (Hsame m' m Hm'U HmU Hk). }
  intros x Hx. now apply Hall.
Qed.

(** The cycle: menu A, the root or a menu that can be reached, lists
    menu B, and B lists A. *)
Variables A B : GopherURL.
Hypothesis HA : A = root_gurl \/ listed root_gurl links A.
Hypothesis HA_menu : GopherURL.is_menu A = true.
Hypothesis HB_menu : GopherURL.is_menu B = true.
Hypothesis HAB : In B (links A).
Hypothesis HBA :
  exists a, In a (links B) /\ GopherURL.is_menu a = true
            /\ GopherURL.__eq__ a A = true.

Lemma listed_in_graph (x : GopherURL) :
  listed root_gurl links x -> In x U.
Proof.
  induction 1 as [x Hx | m x Hm IH Hmenu Hx].
  - apply (Hfinite root_gurl); [now left | exact Hx].
  - apply (Hfinite m); [now right | exact Hx].
Qed.

(** A resource of the graph whose key is in a duplicate-free set has
    one copy there, by host and selector. *)
Lemma one_copy (x x0 : GopherURL) (res : list GopherURL) :
  NoDup (map (key E) res) ->
  (forall y, In y res -> In y U) ->
  In x0 U -> GopherURL.is_menu x0 = true ->
  GopherURL.__eq__ x x0 = true ->
  In (key E x0) (map (key E) res) ->
  copies x res = 1%nat.
Proof.
  intros Hnd HresU Hx0 Hmenu Heq Hin. unfold copies.
  assert (Hkey : forall y, In y res -> GopherURL.__eq__ x y = true ->
                           key E y = key E x0).
  { intros y Hy Hxy.
    assert (Hyx0 : GopherURL.__eq__ y x0 = true).
    { apply eq_iff_host_path in Hxy as [? ?].
      apply eq_iff_host_path in Heq as [? ?].
      apply eq_iff_host_path. split; congruence. }
    apply menus_same_key; [|exact Hmenu | exact Hyx0].
    now rewrite (Hkinds y x0 (HresU y Hy) Hx0 Hyx0). }
  assert (Hle : (List.length (filter (GopherURL.__eq__ x) res) <= 1)%nat).
  { apply (at_most_one E); [exact Hnd|].
    intros a b Ha Hb Fa Fb. now rewrite (Hkey a Ha Fa), (Hkey b Hb Fb). }
  assert (Hge : (1 <= List.length (filter (GopherURL.__eq__ x) res))%nat).
  { apply in_map_iff in Hin as (y & Hk & Hy).
    assert (Hxy : GopherURL.__eq__ x y = true).
    { apply key_eq in Hk. apply eq_iff_host_path in Hk as [? ?].
      apply eq_iff_host_path in Heq as [? ?].
      apply eq_iff_host_path. split; congruence. }
    assert (Hf : In y (filter (GopherURL.__eq__ x) res))
      by (apply filter_In; now split).
    destruct (filter (GopherURL.__eq__ x) res); [destruct Hf | simpl; lia]. }
  lia.
Qed.

(** C6, as the code has it. On a finite menu graph in which a menu A
    lists a menu B and B lists A back, and in which a host and
    selector is listed under one kind only, [crawl] with no bound on
    the depth (as by default) terminates given enough fuel, and the
    set it returns holds A once and B once, counted by host and
    selector. *)
Theorem crawl_cycle_terminates (fuel : nat) (w : world F) :
  fs w = fs0 ->
  (List.length U + 2 <= fuel)%nat ->
  exists res w',
    crawl E config root_gurl fuel w = Some (Ok res, w')
    /\ copies A res = 1%nat
    /\ copies B res = 1%nat.
Proof.
  intros Hfs Hfuel.
  destruct (crawl_static fuel w Hfs Hfuel)
    as (res & w' & Hrun & Hnd & HresU & Hall).
  exists res, w'. split; [exact Hrun|].
  assert (HAnode : graph_node root_gurl U A).
  { destruct HA as [-> | HAl]; [now left | right].
    now apply listed_in_graph. }
  assert (HBl : listed root_gurl links B).
  { destruct HA as [-> | HAl].
    - now apply listed_by_root.
    - now apply (listed_by_menu _ _ A). }
  assert (HBU : In B U) by now apply listed_in_graph.
  destruct HBA as (a & Ha & Hamenu & Haeq).
  assert (Hal : listed root_gurl links a)
    by now apply (listed_by_menu _ _ B).
  split.
  - apply (one_copy A a); try assumption.
    + now apply listed_in_graph.
    + apply eq_iff_host_path in Haeq as [? ?].
      apply eq_iff_host_path. split; congruence.
    + now apply Hall.
  - apply (one_copy B B); try assumption.
    + apply eq_iff_host_path. auto.
    + now apply Hall.
Qed.

End MenuGraph.

(* ================================================================= *)
(** ** The traversal on concrete sites *)

Lemma static_env_ok (t : site) : env_ok (static_env t).
Proof. intros n l. apply Permutation_refl. Qed.

Lemma outcome_world {F A : Type} (o : option (result A * world F))
      (r : result A) :
  option_map fst o = Some r -> exists w', o = Some (r, w').
Proof.
  destruct o as [[r' w']|]; simpl; [|discriminate].
  intros H. injection H as ->. now exists w'.
Qed.

(** C2 as stated fails: on a root menu with one sub-menu the root is
    expanded twice, before the loop and again at its entry of the
    worklist. *)
Lemma root_expanded_twice :
  crawl (static_env site1) default_config root_menu 10 empty_world
  = Some (Ok [sub_menu; some_file], default_final)
  /\ calls (trace default_final) = [root_menu; sub_menu; root_menu]
  /\ expansions_of root_menu (trace default_final) = 2%nat
  /\ ~ (expansions_of root_menu (trace default_final) <= 1)%nat.
Proof.
  split; [vm_compute; reflexivity|].
  split; [vm_compute; reflexivity|].
  split; [vm_compute; reflexivity|].
  vm_compute. lia.
Qed.

(** The bound of three expansions of the root is reached by a root
    that lists itself. *)
Example root_expanded_three_times :
  crawl (static_env self_site) default_config root_menu 10 empty_world
  = Some (Ok [mkGopherURL "1" "Home" "/" "example.org" 70], self_final)
  /\ expansions_of root_menu (trace self_final) = 3%nat.
Proof. split; vm_compute; reflexivity. Qed.

Lemma expanded_once_but_for_root_witness :
  env_ok (static_env site1)
  /\ crawl (static_env site1) default_config root_menu 10 empty_world
     = Some (Ok [sub_menu; some_file], default_final)
  /\ exists added,
      trace default_final = (trace empty_world ++ added)%list
      /\ (exists worklist n,
            calls added = root_menu :: firstn n worklist)
      /\ (forall g, GopherURL.__eq__ g root_menu = false ->
                    (expansions_of g added <= 1)%nat)
      /\ (expansions_of root_menu added <= 3)%nat.
Proof.
  split; [apply static_env_ok|].
  split; [vm_compute; reflexivity|].
  apply (expanded_once_but_for_root
           (static_env site1) (static_env_ok site1) default_config root_menu
           10 empty_world (Ok [sub_menu; some_file]) default_final).
  vm_compute; reflexivity.
Defined.

(** C3 as stated fails: with [maxdepth = 0] the sub-menu of the root
    is expanded and the file it lists, which the root does not list,
    is returned. *)
Lemma maxdepth_zero_expands_a_menu :
  crawl (static_env site1) depth0_config root_menu 10 empty_world
  = Some (Ok [sub_menu; some_file], depth0_final)
  /\ exits (trace depth0_final)
     = [(root_menu, [sub_menu]); (sub_menu, [some_file])]
  /\ set_mem (static_env site1) some_file [sub_menu] = false.
Proof. repeat split; vm_compute; reflexivity. Qed.

Lemma crawl_maxdepth_zero_witness :
  maxdepth depth0_config = Some 0%Z
  /\ (2 <= 10)%nat
  /\ exists r w' added,
      crawl (static_env site1) depth0_config root_menu 10 empty_world
      = Some (r, w')
      /\ trace w' = (trace empty_world ++ added)%list
      /\ (List.length (calls added) <= 2)%nat
      /\ forall res, r = Ok res ->
           exists children menu found,
             exits added = [(root_menu, children); (menu, found)]
             /\ hd_error (initial_worklist (static_env site1) root_menu children)
                = Some menu
             /\ forall x, set_mem (static_env site1) x res
                          = set_mem (static_env site1) x children
                            || set_mem (static_env site1) x found.
Proof.
  split; [reflexivity|]. split; [lia|].
  apply (crawl_maxdepth_zero (static_env site1) depth0_config root_menu 10
                             empty_world); [reflexivity | lia].
Defined.

(** C4 as stated fails: the set returned for a root menu that no menu
    lists does not hold the root. *)
Lemma crawl_result_lacks_root :
  crawl (static_env site1) default_config root_menu 10 empty_world
  = Some (Ok [sub_menu; some_file], default_final)
  /\ set_mem (static_env site1) root_menu [sub_menu; some_file] = false
  /\ existsb (GopherURL.__eq__ root_menu) [sub_menu; some_file] = false.
Proof. repeat split; vm_compute; reflexivity. Qed.

Lemma crawl_returns_what_was_found_witness :
  env_ok (static_env site1)
  /\ crawl (static_env site1) default_config root_menu 10 empty_world
     = Some (Ok [sub_menu; some_file], default_final)
  /\ exists added,
      trace default_final = (trace empty_world ++ added)%list
      /\ (forall x, listed_in x [sub_menu; some_file] = true
                    <-> listed_in x (discovered added) = true)
      /\ (listed_in root_menu [sub_menu; some_file] = true
          <-> exists menu gurls,
                In (menu, gurls) (exits added)
                /\ listed_in root_menu gurls = true).
Proof.
  split; [apply static_env_ok|].
  split; [vm_compute; reflexivity|].
  apply (crawl_returns_what_was_found
           (static_env site1) (static_env_ok site1) default_config root_menu
           10 empty_world [sub_menu; some_file] default_final).
  vm_compute; reflexivity.
Defined.

(** The cycle site serves [cycle_links]. *)
Lemma cycle_site_served (g : GopherURL) (w : world Q) :
  graph_node root_menu [menu_b; menu_a] g ->
  fs w = [] ->
  exists w',
    gopher_urls_from_menu_link (static_env cycle_site) default_config
                               root_menu g w
    = Some (Ok (cycle_links g), w').
Proof.
  intros Hg Hfs. destruct w as [c f t]. simpl in Hfs. subst f.
  apply outcome_world.
  destruct Hg as [-> | [<- | [<- | []]]]; vm_compute; reflexivity.
Qed.

Lemma crawl_cycle_terminates_witness :
  exists res w',
    crawl (static_env cycle_site) default_config root_menu 4 empty_world
    = Some (Ok res, w')
    /\ copies root_menu res = 1%nat
    /\ copies menu_b res = 1%nat.
Proof.
  apply (crawl_cycle_terminates
           (static_env cycle_site) (static_env_ok cycle_site) default_config
           root_menu cycle_links [menu_b; menu_a] [] cycle_site_served).
  - intros g x [-> | [<- | [<- | []]]]; vm_compute; tauto.
  - reflexivity.
  - intros x y [<- | [<- | []]] [<- | [<- | []]] _; reflexivity.
  - intros x y [<- | [<- | []]] [<- | [<- | []]] Hk;
      try reflexivity; apply key_eq in Hk; vm_compute in Hk; discriminate.
  - left. reflexivity.
  - reflexivity.
  - reflexivity.
  - left. reflexivity.
  - exists menu_a. repeat split; vm_compute; auto.
  - reflexivity.
  - simpl. lia.
Defined.

(** The claim of C6 fails in two ways.  Under a depth bound: with
    [-l 0] on a site whose root lists X and A, where A lists B and B
    lists A, the loop stops after X, and B is not in the result.  And
    with the default options when a host and selector is listed under
    two kinds: if B lists A as a menu and as a file, the set holds
    both (see C5). *)
Lemma cycle_cut_by_depth_bound :
  option_map fst
    (gopher_urls_from_menu_link (static_env inner_cycle_site) depth0_config
       root_menu inner_a empty_world)
  = Some (Ok [inner_b])
  /\ option_map fst
       (gopher_urls_from_menu_link (static_env inner_cycle_site)
          depth0_config root_menu inner_b empty_world)
     = Some (Ok [inner_a])
  /\ option_map fst
       (crawl (static_env inner_cycle_site) depth0_config root_menu 10
          empty_world)
     = Some (Ok [menu_x; inner_a])
  /\ copies inner_b [menu_x; inner_a] <> 1%nat
  /\ option_map fst
       (crawl (static_env two_kinds_site) default_config root_menu 10
          empty_world)
     = Some (Ok [menu_b; menu_a; file_a])
  /\ copies root_menu [menu_b; menu_a; file_a] <> 1%nat.
Proof.
  repeat split; try (vm_compute; reflexivity); vm_compute; discriminate.
Qed.


(* ================================================================= *)
(** * Further properties of the program *)

(* ================================================================= *)
(** ** Strings *)

(** No piece of a split holds the separator. *)
Lemma split_pieces (c : ascii) (s : string) :
  forall w, In w (PyStr.split c s) -> has_char c w = false.
Proof.
  induction s as [|d s IH]; simpl; intros w Hw.
  - destruct Hw as [<- | []]. reflexivity.
  - destruct (Ascii.eqb d c) eqn:Hd.
    + destruct Hw as [<- | Hw]; [reflexivity | now apply IH].
    + destruct (PyStr.split c s) as [|w0 ws] eqn:Hs.
      * destruct Hw as [<- | []]. simpl. now rewrite Hd.
      * destruct Hw as [<- | Hw].
        -- simpl. rewrite Hd. apply IH. now left.
        -- apply IH. now right.
Qed.

Lemma lstrip_head (p : ascii -> bool) (s : string) :
  PyStr.lstrip p s = ""
  \/ exists c t, PyStr.lstrip p s = String c t /\ p c = false.
Proof.
  induction s as [|c s IH]; simpl; [now left|].
  destruct (p c) eqn:Hc; [exact IH|]. right. now exists c, s.
Qed.

Lemma rstrip_head (p : ascii -> bool) (c : ascii) (t : string) :
  PyStr.rstrip p (String c t) = ""
  \/ exists r, PyStr.rstrip p (String c t) = String c r.
Proof.
  simpl. destruct (PyStr.rstrip p t).
  - destruct (p c); [now left | right; now eexists].
  - right. now eexists.
Qed.

(** What [strip] leaves does not begin with a stripped character. *)
Lemma strip_head (p : ascii -> bool) (s : string) :
  PyStr.strip p s = ""
  \/ exists c t, PyStr.strip p s = String c t /\ p c = false.
Proof.
  unfold PyStr.strip.
  destruct (lstrip_head p s) as [-> | (c & t & -> & Hc)]; [now left|].
  destruct (rstrip_head p c t) as [-> | (r & ->)]; [now left|].
  right. now exists c, r.
Qed.

Lemma prefix_cons (a b : ascii) (s t : string) :
  String.prefix (String a s) (String b t)
  = if Ascii.eqb a b then String.prefix s t else false.
Proof.
  change (String.prefix (String a s) (String b t))
    with (if ascii_dec a b then String.prefix s t else false).
  destruct (ascii_dec a b) as [-> | Hn].
  - now rewrite Ascii.eqb_refl.
  - apply Ascii.eqb_neq in Hn. now rewrite Hn.
Qed.

Lemma prefix_append (a b : string) : String.prefix a (a ++ b) = true.
Proof.
  induction a as [|c a IH]; [now destruct b|].
  change (String c a ++ b) with (String c (a ++ b)).
  now rewrite prefix_cons, Ascii.eqb_refl.
Qed.

Lemma str_app_assoc (a b c : string) : (a ++ b) ++ c = a ++ b ++ c.
Proof. induction a as [|x a IH]; simpl; [reflexivity | now rewrite IH]. Qed.

Lemma str_app_nil_r (a : string) : a ++ "" = a.
Proof. induction a as [|x a IH]; simpl; [reflexivity | now rewrite IH]. Qed.

(* ================================================================= *)
(** ** The resource class *)

(** X1. [__eq__] is reflexive, symmetric and transitive. *)
Theorem eq_equivalence (a b c : GopherURL) :
  GopherURL.__eq__ a a = true
  /\ GopherURL.__eq__ a b = GopherURL.__eq__ b a
  /\ implb (GopherURL.__eq__ a b && GopherURL.__eq__ b c)
           (GopherURL.__eq__ a c) = true.
Proof.
  split; [|split].
  - apply eq_iff_host_path. auto.
  - apply eq_true_iff_eq. rewrite !eq_iff_host_path. intuition congruence.
  - destruct (GopherURL.__eq__ a b) eqn:Hab; [|reflexivity].
    destruct (GopherURL.__eq__ b c) eqn:Hbc; [|reflexivity].
    simpl. apply eq_iff_host_path in Hab as [? ?].
    apply eq_iff_host_path in Hbc as [? ?].
    apply eq_iff_host_path. split; congruence.
Qed.

(** X2. The storage path is the host, the selector stripped of its outer
    slashes and, for a menu, the file name of menus, with a separator
    or nothing in between: it begins with the host whatever the
    selector. *)
Theorem storage_path_shape (g : GopherURL) :
  exists glue1 glue2,
    (glue1 = "" \/ glue1 = "/") /\ (glue2 = "" \/ glue2 = "/")
    /\ GopherURL.to_file_path g
       = host g ++ glue1 ++ PyStr.strip PyStr.is_slash (path g)
         ++ (if GopherURL.is_menu g then glue2 ++ "gophermap" else "")
    /\ PyStr.startswith (GopherURL.to_file_path g) (host g) = true.
Proof.
  assert (Hrel : PyStr.startswith (PyStr.strip PyStr.is_slash (path g))
                                  PosixPath.sep = false).
  { destruct (strip_head PyStr.is_slash (path g)) as [-> | (c & t & -> & Hc)];
      [reflexivity|].
    unfold PyStr.startswith, PosixPath.sep. rewrite prefix_cons.
    unfold PyStr.is_slash in Hc. rewrite Ascii.eqb_sym, Hc. reflexivity. }
  assert (Hup : exists glue1,
             (glue1 = "" \/ glue1 = "/")
             /\ GopherURL.to_url_path g
                = host g ++ glue1 ++ PyStr.strip PyStr.is_slash (path g)).
  { rewrite to_url_path_spec. unfold PosixPath.join2. rewrite Hrel.
    destruct (_ || _); [exists "" | exists "/"]; auto. }
  destruct Hup as (glue1 & Hg1 & Hup).
  unfold GopherURL.to_file_path.
  destruct (GopherURL.is_menu g).
  - assert (Hfp : exists glue2,
               (glue2 = "" \/ glue2 = "/")
               /\ PosixPath.join (GopherURL.to_url_path g) ["gophermap"]
                  = GopherURL.to_url_path g ++ glue2 ++ "gophermap").
    { unfold PosixPath.join. simpl. unfold PosixPath.join2.
      change (PyStr.startswith "gophermap" PosixPath.sep) with false.
      cbv iota. destruct (_ || _); [exists "" | exists "/"]; auto. }
    destruct Hfp as (glue2 & Hg2 & ->). rewrite Hup.
    exists glue1, glue2. split; [exact Hg1|]. split; [exact Hg2|].
    rewrite !str_app_assoc. split; [reflexivity | apply prefix_append].
  - exists glue1, "". split; [exact Hg1|]. split; [auto|]. rewrite Hup.
    split; [now rewrite str_app_nil_r | apply prefix_append].
Qed.

(** X3. [get_menus] and [get_files] split a list in two: every resource
    is in exactly one of them. *)
Theorem menus_and_files_partition (gurls : list GopherURL) :
  Permutation (get_menus gurls ++ get_files gurls) gurls
  /\ forall g, In g (get_menus gurls) -> ~ In g (get_files gurls).
Proof.
  split.
  - induction gurls as [|g l IH]; simpl; [constructor|].
    destruct (GopherURL.is_menu g); simpl.
    + now constructor.
    + apply Permutation_sym, Permutation_cons_app. now apply Permutation_sym.
  - intros g Hm Hf. unfold get_menus, get_files in *.
    apply filter_In in Hm as [_ Hm]. apply filter_In in Hf as [_ Hf].
    rewrite Hm in Hf. discriminate.
Qed.

(* ================================================================= *)
(** ** The logging helper and the root address *)

Lemma substring_length (s : string) :
  forall n m,
    String.length (substring n m s) = Nat.min m (String.length s - n).
Proof.
  induction s as [|c s IH]; intros [|n] [|m]; simpl; try reflexivity.
  - now rewrite IH, Nat.sub_0_r.
  - apply IH.
  - apply IH.
Qed.

(** X4. A string of at most [maxlen] characters is logged as it is; a
    longer one is cut to its first and last [maxlen // 2] characters
    around three dots. *)
Theorem str_slice_length (s : string) (maxlen : nat) :
  (2 <= maxlen)%nat ->
  if (String.length s <=? maxlen)%nat then _str_slice s maxlen = s
  else String.length (_str_slice s maxlen) = (2 * (maxlen / 2) + 3)%nat
       /\ (String.length (_str_slice s maxlen) <= maxlen + 3)%nat
       /\ String.prefix (substring 0 (maxlen / 2) s) (_str_slice s maxlen)
          = true.
Proof.
  intros Hmax. unfold _str_slice.
  destruct (String.length s <=? maxlen)%nat eqn:Hlen; [reflexivity|].
  apply Nat.leb_gt in Hlen.
  assert (Hk : (1 <= maxlen / 2)%nat).
  { apply Nat.div_le_lower_bound; lia. }
  assert (Hk2 : (2 * (maxlen / 2) <= maxlen)%nat).
  { apply Nat.Div0.mul_div_le. }
  unfold py_prefix, py_suffix.
  destruct (maxlen / 2 =? 0)%nat eqn:H0; [apply Nat.eqb_eq in H0; lia|].
  rewrite !append_length, !substring_length. simpl String.length.
  split; [lia|]. split; [lia|]. apply prefix_append.
Qed.

Lemma str_slice_length_witness :
  (2 <= 150)%nat
  /\ _str_slice "CALL getlinks" 150 = "CALL getlinks".
Proof.
  split; [lia|].
  apply (str_slice_length "CALL getlinks" 150). lia.
Defined.

Lemma last_char_tail (c : ascii) (s : string) :
  s <> "" -> last_char (String c s) = last_char s.
Proof. destruct s; [congruence | reflexivity]. Qed.

Lemma last_cons {A : Type} (x : A) (l : list A) (d : A) :
  l <> [] -> last (x :: l) d = last l d.
Proof. destruct l; [congruence | reflexivity]. Qed.

(** The last character of a path is that of its last segment, when
    the segment is not empty. *)
Lemma last_char_of_last_segment (path : string) :
  last (PyStr.split "/" path) "" <> "" ->
  last_char path = last_char (last (PyStr.split "/" path) "").
Proof.
  induction path as [|d s IH]; [simpl; congruence|].
  simpl PyStr.split. destruct (Ascii.eqb d "/") eqn:Hd.
  - rewrite last_cons by apply split_not_nil. intros He.
    destruct s as [|d' s']; [simpl in He; congruence|].
    rewrite last_char_tail by discriminate. now apply IH.
  - destruct (PyStr.split "/" s) as [|w ws] eqn:Hs;
      [now apply split_not_nil in Hs|].
    destruct ws as [|w' ws].
    + intros _. simpl last.
      pose proof (join_split "/" s) as Hj. rewrite Hs in Hj. simpl in Hj.
      now subst w.
    + rewrite last_cons by discriminate. intros He.
      destruct s as [|d' s']; [simpl in Hs; discriminate|].
      rewrite last_char_tail by discriminate.
      rewrite <- (last_cons w (w' :: ws) "") in * by discriminate.
      now apply IH.
Qed.

Lemma last_char_in (c : ascii) (s x : string) :
  has_char c s = false -> last_char s = Ok x -> x <> String c "".
Proof.
  induction s as [|d s IH]; simpl; [discriminate|].
  intros H. apply orb_false_iff in H as [Hd Hs].
  destruct s as [|d' s'].
  - intros Hx. injection Hx as <-. apply Ascii.eqb_neq in Hd. congruence.
  - now apply IH.
Qed.

Lemma contains_nonempty (sub s : string) :
  sub <> "" -> PyStr.contains sub s = true -> s <> "".
Proof.
  intros Hsub H ->. simpl in H. destruct sub; [congruence | discriminate].
Qed.

Lemma last_in {A : Type} (l : list A) (d : A) : l <> [] -> In (last l d) l.
Proof.
  induction l as [|x l IH]; [congruence|]. intros _.
  destruct l as [|y l]; [now left|]. right. apply IH. discriminate.
Qed.

(** X5. [probably_a_menu] never raises, and its second test adds nothing:
    a path is taken for a menu exactly when its last segment has no
    dot. *)
Theorem probably_a_menu_spec (path : string) :
  probably_a_menu path
  = Ok (negb (PyStr.contains "." (last (PyStr.split "/" path) ""))).
Proof.
  unfold probably_a_menu.
  destruct (PyStr.contains "." (last (PyStr.split "/" path) "")) eqn:Hdot;
    [|reflexivity].
  simpl negb. cbv iota.
  assert (Hne : last (PyStr.split "/" path) "" <> "").
  { eapply contains_nonempty; [|exact Hdot]. discriminate. }
  rewrite (last_char_of_last_segment path Hne).
  assert (Hns : has_char "/" (last (PyStr.split "/" path) "") = false).
  { apply (split_pieces "/" path). apply last_in, split_not_nil. }
  destruct (last_char (last (PyStr.split "/" path) "")) as [c|e] eqn:Hl.
  - simpl. pose proof (last_char_in _ _ _ Hns Hl) as Hc.
    apply String.eqb_neq in Hc. now rewrite Hc.
  - exfalso. destruct (last (PyStr.split "/" path) ""); [congruence|].
    clear -Hl. revert a Hl. induction s as [|d s IH]; intros a; simpl.
    + discriminate.
    + intros H. now apply (IH d).
Qed.

(** X6. Whatever [urlsplit] answers, an address that [spliturl] accepts
    has no foreign scheme, and the triple returned has a selector that
    is not empty and a host without a colon. *)
Theorem spliturl_result
        (urlsplit : string -> result SplitResult) (urlstr : string)
        (h : string) (p : Z) (sel : string) :
  spliturl urlsplit urlstr = Ok (h, p, sel) ->
  sel <> ""
  /\ has_char ":" h = false
  /\ (PyStr.contains "://" urlstr = false
      \/ substring 0 9 urlstr = "gopher://").
Proof.
  unfold spliturl.
  destruct (PyStr.contains "://" urlstr) eqn:Hs;
    destruct (String.eqb (substring 0 9 urlstr) "gopher://") eqn:Hg;
    simpl; try discriminate.
  all: destruct (urlsplit _) as [url|e]; simpl; [|discriminate].
  all: unfold PyStr.index;
    destruct (PyStr.split ":" (url_netloc url)) as [|h0 rest] eqn:Hsp;
    [now apply split_not_nil in Hsp|]; simpl.
  all: destruct (url_port url) as [port|e]; simpl; [|discriminate].
  all: intros H; injection H as <- _ <-.
  all: split; [|split].
  all: try (rewrite (split_pieces ":" (url_netloc url)); [reflexivity|];
            rewrite Hsp; now left).
  all: try (right; now apply String.eqb_eq).
  all: try (now left).
  all: destruct (String.length (url_path url) =? 0)%nat eqn:Hl;
    destruct (PyStr.is_empty (url_query url)); try discriminate;
    destruct (url_path url); simpl in *; discriminate.
Qed.

Lemma spliturl_result_witness :
  spliturl urlsplit_sample "example.org:7070" = Ok ("example.org", 7070%Z, "/")
  /\ "/" <> ""
  /\ has_char ":" "example.org" = false.
Proof.
  split; [reflexivity|].
  destruct (spliturl_result urlsplit_sample "example.org:7070"
                            "example.org" 7070%Z "/" eq_refl) as (H1 & H2 & _).
  split; assumption.
Defined.

(* ================================================================= *)
(** ** The menu parser, further *)


Lemma has_char_lstrip (c : ascii) (p : ascii -> bool) (s : string) :
  has_char c s = false -> has_char c (PyStr.lstrip p s) = false.
Proof.
  induction s as [|d s IH]; simpl; [reflexivity|].
  intros H. destruct (p d); [|exact H].
  apply orb_false_iff in H as [_ H]. now apply IH.
Qed.

Lemma has_char_rstrip (c : ascii) (p : ascii -> bool) (s : string) :
  has_char c s = false -> has_char c (PyStr.rstrip p s) = false.
Proof.
  induction s as [|d s IH]; simpl; [reflexivity|].
  intros H. apply orb_false_iff in H as [Hd Hs]. specialize (IH Hs).
  destruct (PyStr.rstrip p s).
  - destruct (p d); simpl; [reflexivity | now rewrite Hd].
  - simpl in *. now rewrite Hd, IH.
Qed.

Lemma has_char_strip (c : ascii) (p : ascii -> bool) (s : string) :
  has_char c s = false -> has_char c (PyStr.strip p s) = false.
Proof. intros H. now apply has_char_rstrip, has_char_lstrip. Qed.

(** The pieces of a split hold no character the string does not. *)
Lemma has_char_piece (c sep : ascii) (s : string) :
  has_char c s = false ->
  forall w, In w (PyStr.split sep s) -> has_char c w = false.
Proof.
  induction s as [|d s IH]; simpl; intros H w Hw.
  - destruct Hw as [<- | []]. reflexivity.
  - apply orb_false_iff in H as [Hd Hs].
    destruct (Ascii.eqb d sep).
    + destruct Hw as [<- | Hw]; [reflexivity | now apply IH].
    + destruct (PyStr.split sep s) as [|w0 ws].
      * destruct Hw as [<- | []]. simpl. now rewrite Hd.
      * destruct Hw as [<- | Hw].
        -- simpl. rewrite Hd. apply IH; [exact Hs | now left].
        -- apply IH; [exact Hs | now right].
Qed.

Lemma has_char_tail (c : ascii) (s : string) :
  has_char c s = false -> has_char c (PyStr.tail s) = false.
Proof.
  destruct s; simpl; [auto|]. intros H. now apply orb_false_iff in H.
Qed.

Lemma rstrip_idempotent (p : ascii -> bool) (s : string) :
  PyStr.rstrip p (PyStr.rstrip p s) = PyStr.rstrip p s.
Proof.
  induction s as [|c s IH]; [reflexivity|]. simpl.
  destruct (PyStr.rstrip p s) as [|d r] eqn:R.
  - destruct (p c) eqn:Hc; [reflexivity|]. simpl. now rewrite Hc.
  - change (PyStr.rstrip p (String c (String d r)))
      with (match PyStr.rstrip p (String d r) with
            | EmptyString => if p c then EmptyString else String c EmptyString
            | String a b => String c (String a b)
            end).
    now rewrite IH.
Qed.

Lemma lstrip_fixed (p : ascii -> bool) (s : string) :
  (s = "" \/ exists c t, s = String c t /\ p c = false) ->
  PyStr.lstrip p s = s.
Proof.
  intros [-> | (c & t & -> & Hc)]; simpl; [reflexivity | now rewrite Hc].
Qed.

(** Stripping twice is stripping once. *)
Lemma strip_idempotent (p : ascii -> bool) (s : string) :
  PyStr.strip p (PyStr.strip p s) = PyStr.strip p s.
Proof.
  unfold PyStr.strip at 1.
  rewrite (lstrip_fixed p (PyStr.strip p s) (strip_head p s)).
  unfold PyStr.strip. apply rstrip_idempotent.
Qed.

Lemma first_char_length (s ty : string) :
  PyStr.first_char s = Ok ty -> String.length ty = 1%nat.
Proof. destruct s; simpl; [discriminate|]. now intros [= <-]. Qed.

(** What puts a resource in the output of the parser. *)
Lemma contribution_inv (cwd line : string) (u : GopherURL) :
  In u (contribution cwd line) ->
  exists tok0 tok1 tok2 more,
    PyStr.split tab (PyStr.strip PyStr.is_space line)
    = tok0 :: tok1 :: tok2 :: more
    /\ PyStr.first_char tok0 = Ok (type u)
    /\ String.eqb (type u) "i" = false
    /\ text u = PyStr.tail tok0
    /\ path u = PyStr.strip PyStr.is_space tok1
    /\ host u = PyStr.strip PyStr.is_space tok2
    /\ GopherURL.valid cwd u = Ok true.
Proof.
  unfold contribution, getlinks_line.
  destruct (PyStr.split tab (PyStr.strip PyStr.is_space line))
    as [|tok0 rest]; simpl; [tauto|].
  destruct rest as [|tok1 [|tok2 [|tok3 more]]]; simpl;
    try (destruct (PyStr.first_char tok0) as [ty|]; simpl;
         try destruct (String.eqb ty "i"); simpl; tauto).
  destruct (PyStr.first_char tok0) as [ty|] eqn:Hty; simpl; [|tauto].
  destruct (String.eqb ty "i") eqn:Hi; [simpl; tauto|].
  destruct (PyStr.int _) as [p|]; simpl; [|tauto].
  destruct (GopherURL.valid cwd _) as [[|]|] eqn:Hv; simpl; try tauto.
  intros [<- | []]. exists tok0, tok1, tok2, (tok3 :: more). simpl.
  repeat split; auto.
Qed.

(** The fields of a parsed resource. *)
Lemma parsed_resource (cwd menucontent : string) (urls : list GopherURL)
      (u : GopherURL) :
  getlinks cwd menucontent = Ok urls ->
  In u urls ->
  GopherURL.valid cwd u = Ok true
  /\ String.length (type u) = 1%nat
  /\ type u <> "i"
  /\ GopherURL.type_is_invalid u = false
  /\ path u <> ""
  /\ (0 < port u)%Z
  /\ PyStr.contains "URL:" (path u) = false
  /\ has_char tab (text u) = false /\ has_char newline (text u) = false
  /\ has_char tab (path u) = false /\ has_char newline (path u) = false
  /\ has_char tab (host u) = false /\ has_char newline (host u) = false
  /\ PyStr.strip PyStr.is_space (path u) = path u
  /\ PyStr.strip PyStr.is_space (host u) = host u.
Proof.
  rewrite getlinks_spec. intros [= <-] Hu.
  apply in_flat_map in Hu as (line & Hline & Hu).
  apply contribution_inv in Hu
    as (tok0 & tok1 & tok2 & more & Hs & Hty & Hi & Htext & Hpath & Hhost & Hv).
  assert (Hnl : has_char newline (PyStr.strip PyStr.is_space line) = false).
  { apply has_char_strip. now apply (split_pieces newline menucontent). }
  assert (Htok : forall w, In w [tok0; tok1; tok2] ->
                           has_char tab w = false /\ has_char newline w = false).
  { intros w Hw.
    assert (Hin : In w (PyStr.split tab (PyStr.strip PyStr.is_space line))).
    { rewrite Hs. simpl in *. tauto. }
    split; [now apply (split_pieces tab (PyStr.strip PyStr.is_space line) w)
           | now apply (has_char_piece
                          newline tab (PyStr.strip PyStr.is_space line) Hnl)]. }
  destruct (Htok tok0 ltac:(simpl; tauto)) as [H0t H0n].
  destruct (Htok tok1 ltac:(simpl; tauto)) as [H1t H1n].
  destruct (Htok tok2 ltac:(simpl; tauto)) as [H2t H2n].
  pose proof Hv as Hv'. rewrite valid_spec in Hv'.
  destruct ((String.length (path u) =? 0)%nat) eqn:Hlen;
    [simpl in Hv'; discriminate|].
  destruct (port u <=? 0)%Z eqn:Hport; [simpl in Hv'; discriminate|].
  destruct (GopherURL.type_is_invalid u) eqn:Hinv;
    [simpl in Hv'; discriminate|].
  destruct (PyStr.contains "URL:" (path u)) eqn:Hurl;
    [simpl in Hv'; discriminate|].
  split; [exact Hv|].
  split; [eapply first_char_length; eauto|].
  split; [now apply String.eqb_neq|].
  split; [reflexivity|].
  split; [intros Hp; rewrite Hp in Hlen; discriminate|].
  split; [apply Z.leb_gt in Hport; lia|].
  split; [reflexivity|].
  rewrite Htext, Hpath, Hhost.
  repeat split;
    auto using has_char_tail, has_char_strip, strip_idempotent.
Qed.

(** X8. Every resource that the parser returns has passed the validator,
    has a one-character type other than [i], a selector that is not
    empty, a positive port, and fields without tab or line feed, the
    selector and the host without white space around them. *)
Theorem getlinks_output (cwd menucontent : string) (urls : list GopherURL)
        (u : GopherURL) :
  getlinks cwd menucontent = Ok urls ->
  In u urls ->
  GopherURL.valid cwd u = Ok true
  /\ String.length (type u) = 1%nat
  /\ type u <> "i"
  /\ GopherURL.type_is_invalid u = false
  /\ path u <> ""
  /\ (0 < port u)%Z
  /\ PyStr.contains "URL:" (path u) = false
  /\ has_char tab (text u) = false /\ has_char newline (text u) = false
  /\ has_char tab (path u) = false /\ has_char newline (path u) = false
  /\ has_char tab (host u) = false /\ has_char newline (host u) = false
  /\ PyStr.strip PyStr.is_space (path u) = path u
  /\ PyStr.strip PyStr.is_space (host u) = host u.
Proof. apply parsed_resource. Qed.

Lemma getlinks_output_witness :
  getlinks "/home/user"
           (menu_line "1" "Sub" "/sub" "example.org" "70") = Ok [sub_menu]
  /\ In sub_menu [sub_menu]
  /\ GopherURL.valid "/home/user" sub_menu = Ok true
  /\ (0 < port sub_menu)%Z.
Proof.
  split; [reflexivity|]. split; [now left|].
  pose proof (getlinks_output
                "/home/user" (menu_line "1" "Sub" "/sub" "example.org" "70")
                [sub_menu] sub_menu eq_refl (or_introl eq_refl)) as H.
  split; [apply H|]. apply H.
Defined.

Lemma split_append_sep_any (c : ascii) (a b : string) :
  PyStr.split c (a ++ String c b) = (PyStr.split c a ++ PyStr.split c b)%list.
Proof.
  induction a as [|d a IH]; simpl.
  - now rewrite Ascii.eqb_refl.
  - destruct (Ascii.eqb d c); [now rewrite IH|].
    rewrite IH. destruct (PyStr.split c a) as [|w ws] eqn:Hs;
      [now apply split_not_nil in Hs | reflexivity].
Qed.

(** X9. The parser distributes over the concatenation of menus: what two
    menus put one after the other parse to is what each parses to, in
    that order, with nothing merged or dropped. *)
Theorem getlinks_concatenation (cwd a b : string) :
  match getlinks cwd a, getlinks cwd b with
  | Ok urls_a, Ok urls_b =>
      getlinks cwd (a ++ String newline b) = Ok (urls_a ++ urls_b)%list
  | _, _ => False
  end.
Proof.
  rewrite !getlinks_spec, split_append_sep_any, flat_map_app. reflexivity.
Qed.






(* ================================================================= *)
(** ** The fetch primitive, further *)

Section DownloadOutcomes.
Context {F : Type} {PF : PyFloat F}.
Variable E : env.
Variable self : GopherURL.




End DownloadOutcomes.


(* ================================================================= *)
(** ** The traversal, further *)

Section CrawlScope.
Context {F : Type} {PF : PyFloat F}.
Variable E : env.
Variable config : Config F.
Variable root_gurl : GopherURL.

Lemma gurl_ok_by_config_spec (link : GopherURL) :
  gurl_ok_by_config config root_gurl link
  = (spanhosts config || String.eqb (host root_gurl) (host link))
    && (ascend_parents config
        || PyStr.startswith (path link) (path root_gurl))
    && ((negb (regex_on_menus config) && GopherURL.is_menu link)
        || passes_regexes config link).
Proof.
  unfold gurl_ok_by_config, passes_regexes.
  destruct (spanhosts config); destruct (String.eqb (host root_gurl) (host link));
    destruct (ascend_parents config);
    destruct (PyStr.startswith (path link) (path root_gurl));
    destruct (regex_on_menus config); destruct (GopherURL.is_menu link);
    destruct (reject_regex config) as [r|];
    destruct (accept_regex config) as [a|]; simpl; try reflexivity;
    try destruct (r (GopherURL.to_url link));
    try destruct (a (GopherURL.to_url link)); reflexivity.
Qed.

(** What an expansion returns was parsed from a menu and passed the
    filter. *)
Lemma expansion_output (g : GopherURL) (w : world F) (l : list GopherURL)
      (w' : world F) :
  gopher_urls_from_menu_link E config root_gurl g w = Some (Ok l, w') ->
  forall u, In u l ->
    gurl_ok_by_config config root_gurl u = true
    /\ exists content urls, getlinks (cwd E) content = Ok urls /\ In u urls.
Proof.
  unfold gopher_urls_from_menu_link, mbind at 1, emit at 1.
  unfold mbind at 1.
  destruct (retrieve_menu_content E config g _) as [[r w1]|]; [|discriminate].
  destruct r as [[content|]|e]; simpl.
  - unfold mbind, lift, ret, emit.
    destruct (getlinks (cwd E) content) as [gurls|e] eqn:G; simpl.
    + intros H. injection H as <- _. intros u Hu.
      apply filter_In in Hu as [Hu Hok]. split; [exact Hok|].
      now exists content, gurls.
    + discriminate.
  - unfold mbind, ret, emit. intros H. injection H as <- _. intros u [].
  - discriminate.
Qed.

Section Kept.
Variable P : GopherURL -> Prop.
Hypothesis HP :
  forall g w l w',
    gopher_urls_from_menu_link E config root_gurl g w = Some (Ok l, w') ->
    forall u, In u l -> P u.

Lemma crawl_loop_keeps (fuel : nat) :
  forall i menus gurls depth w r w',
    (forall u, In u gurls -> P u) ->
    crawl_loop E config root_gurl fuel i menus gurls depth w = Some (r, w') ->
    fs w' = fs w /\ forall res, r = Ok res -> forall u, In u res -> P u.
Proof.
  induction fuel as [|fuel IH]; intros i menus gurls depth w r w' Hg;
    [discriminate|].
  rewrite crawl_loop_eq.
  assert (Hstop : ret gurls w = Some (r, w') ->
            fs w' = fs w
            /\ forall res, r = Ok res -> forall u, In u res -> P u).
  { unfold ret. intros H. injection H as <- <-. split; [reflexivity|].
    intros res H. injection H as <-. exact Hg. }
  destruct (nth_error menus i) as [menu|]; [|exact Hstop].
  destruct (depth_exceeded config depth); [exact Hstop|]. clear Hstop.
  unfold mbind.
  destruct (gopher_urls_from_menu_link E config root_gurl menu w)
    as [[[links|e] w1]|] eqn:X; [| |discriminate].
  - pose proof (HP _ _ _ _ X) as Hl.
    apply expansion_effect in X as (Hfs1 & _).
    intros H. apply IH in H.
    + destruct H as [Hfs2 Hres]. split; [congruence | exact Hres].
    + intros u Hu. apply set_update_elements in Hu as [Hu | Hu];
        [now apply Hg|].
      apply set_difference_elements in Hu as [Hu _].
      apply set_of_elements in Hu. now apply Hl.
  - apply expansion_effect in X as (Hfs1 & _).
    intros H. injection H as <- <-. split; [exact Hfs1 | discriminate].
Qed.

Lemma crawl_keeps (fuel : nat) (w : world F) (r : result (list GopherURL))
      (w' : world F) :
  crawl E config root_gurl fuel w = Some (r, w') ->
  fs w' = fs w /\ forall res, r = Ok res -> forall u, In u res -> P u.
Proof.
  unfold crawl, mbind.
  destruct (gopher_urls_from_menu_link E config root_gurl root_gurl w)
    as [[[links|e] w1]|] eqn:X; [| |discriminate].
  - pose proof (HP _ _ _ _ X) as Hl.
    apply expansion_effect in X as (Hfs1 & _).
    intros H. apply crawl_loop_keeps in H.
    + destruct H as [Hfs2 Hres]. split; [congruence | exact Hres].
    + intros u Hu. apply set_of_elements in Hu. now apply Hl.
  - apply expansion_effect in X as (Hfs1 & _).
    intros H. injection H as <- <-. split; [exact Hfs1 | discriminate].
Qed.

End Kept.

(** X12. Every resource in the set that [crawl] returns has passed the
    validator and the filter of the run: without [-s] it is on the
    host of the root, without [-p] its selector starts with the
    selector of the root, and unless it is a menu exempt from them it
    has passed the regular expressions. *)
Theorem crawl_result_in_scope
        (fuel : nat) (w : world F) (res : list GopherURL) (w' : world F)
        (u : GopherURL) :
  crawl E config root_gurl fuel w = Some (Ok res, w') ->
  In u res ->
  GopherURL.valid (cwd E) u = Ok true
  /\ GopherURL.type_is_invalid u = false
  /\ type u <> "i"
  /\ (spanhosts config = false -> host u = host root_gurl)
  /\ (ascend_parents config = false ->
      PyStr.startswith (path u) (path root_gurl) = true)
  /\ (regex_on_menus config = true \/ GopherURL.is_menu u = false ->
      passes_regexes config u = true).
Proof.
  intros H Hu.
  apply (crawl_keeps
           (fun u => gurl_ok_by_config config root_gurl u = true
                     /\ exists content urls,
                         getlinks (cwd E) content = Ok urls /\ In u urls)
           expansion_output) in H.
  destruct H as [_ H].
  destruct (H res eq_refl u Hu) as (Hok & content & urls & Hg & Hin).
  destruct (parsed_resource _ _ _ _ Hg Hin) as (Hv & _ & Hi & Ht & _).
  split; [exact Hv|]. split; [exact Ht|]. split; [exact Hi|].
  rewrite gurl_ok_by_config_spec in Hok.
  apply andb_true_iff in Hok as [Hok Hre].
  apply andb_true_iff in Hok as [Hhost Hpath].
  split; [|split].
  - intros Hs. rewrite Hs in Hhost. simpl in Hhost.
    symmetry. now apply String.eqb_eq.
  - intros Hs. now rewrite Hs in Hpath.
  - intros [Hm | Hm]; rewrite Hm in Hre; simpl in Hre;
      [exact Hre | now rewrite andb_false_r in Hre].
Qed.

(** X13. [crawl] writes nothing: whatever it fetches, and however it ends,
    the file store is as it was. *)
Theorem crawl_keeps_store
        (fuel : nat) (w : world F) (r : result (list GopherURL))
        (w' : world F) :
  crawl E config root_gurl fuel w = Some (r, w') -> fs w' = fs w.
Proof.
  intros H.
  now apply (crawl_keeps (fun _ => True) (fun _ _ _ _ _ _ _ => I)) in H.
Qed.

Lemma crawl_loop_bounded (m : Z) (fuel : nat) :
  maxdepth config = Some m ->
  forall i menus gurls depth w r w',
    crawl_loop E config root_gurl fuel i menus gurls depth w = Some (r, w') ->
    exists added,
      trace w' = (trace w ++ added)%list
      /\ (List.length (calls added) <= Z.to_nat (m + 1 - depth))%nat.
Proof.
  intros Hm.
  induction fuel as [|fuel IH]; intros i menus gurls depth w r w';
    [discriminate|].
  rewrite crawl_loop_eq.
  assert (Hstop : ret gurls w = Some (r, w') ->
             exists added,
               trace w' = (trace w ++ added)%list
               /\ (List.length (calls added)
                   <= Z.to_nat (m + 1 - depth))%nat).
  { unfold ret. intros H. injection H as _ <-. exists [].
    split; [now rewrite app_nil_r | simpl; lia]. }
  destruct (nth_error menus i) as [menu|]; [|exact Hstop].
  unfold depth_exceeded. rewrite Hm.
  destruct (m <? depth)%Z eqn:Hd; [exact Hstop|]. clear Hstop.
  apply Z.ltb_ge in Hd. unfold mbind.
  destruct (gopher_urls_from_menu_link E config root_gurl menu w)
    as [[[links|e] w1]|] eqn:X; [| |discriminate].
  - apply expansion_effect in X as (_ & a1 & Ht1 & Hc1 & _).
    intros H. apply IH in H. destruct H as (a2 & Ht2 & Hc2).
    exists (a1 ++ a2)%list.
    split; [rewrite Ht2, Ht1; now rewrite <- app_assoc|].
    rewrite calls_app, length_app, Hc1. simpl.
    replace (m + 1 - (depth + 1))%Z with (m + 1 - depth - 1)%Z in Hc2 by lia.
    lia.
  - apply expansion_effect in X as (_ & a1 & Ht1 & Hc1 & _).
    intros H. injection H as _ <-. exists a1. split; [exact Ht1|].
    rewrite Hc1. simpl. lia.
Qed.

(** X14. With [-l m] a run of the traversal, however it ends, has
    expanded at most [m + 2] menus: the root and [m + 1] entries of
    the worklist.  The loop counts its passes, that is menus and not
    levels. *)
Theorem crawl_bounded_by_maxdepth
        (m : Z) (fuel : nat) (w : world F) (r : result (list GopherURL))
        (w' : world F) :
  maxdepth config = Some m ->
  crawl E config root_gurl fuel w = Some (r, w') ->
  exists added,
    trace w' = (trace w ++ added)%list
    /\ (List.length (calls added) <= 1 + Z.to_nat (m + 1))%nat.
Proof.
  intros Hm. unfold crawl, mbind.
  destruct (gopher_urls_from_menu_link E config root_gurl root_gurl w)
    as [[[links|e] w1]|] eqn:X; [| |discriminate].
  - apply expansion_effect in X as (_ & a1 & Ht1 & Hc1 & _).
    intros H. apply (crawl_loop_bounded m fuel Hm) in H.
    destruct H as (a2 & Ht2 & Hc2).
    exists (a1 ++ a2)%list.
    split; [rewrite Ht2, Ht1; now rewrite <- app_assoc|].
    rewrite calls_app, length_app, Hc1. rewrite Z.sub_0_r in Hc2.
    simpl. lia.
  - apply expansion_effect in X as (_ & a1 & Ht1 & Hc1 & _).
    intros H. injection H as _ <-. exists a1. split; [exact Ht1|].
    rewrite Hc1. simpl. lia.
Qed.

Lemma not_retried_not_caught (e : exn) :
  is_retried e = false -> caught_by_retrieve e = false.
Proof. now destruct e. Qed.

(** X15. An error that [download] does not retry (a reset connection, say)
    is caught nowhere on the way up: met on the first attempt at the
    root, it ends [crawl] with that error, after one CALL record and
    one attempt. *)
Theorem crawl_aborts_on_unretried_error
        (e : exn) (fuel : nat) (w : world F) :
  exists_ E (fs w) (GopherURL.to_file_path root_gurl)
  && negb (clobber config) = false ->
  sleep_ok (delay config) = true ->
  net E (clock w) (host root_gurl) (port root_gurl) (path root_gurl)
  = Failed e ->
  is_retried e = false ->
  crawl E config root_gurl fuel w
  = Some (Raise e,
          mkWorld (S (clock w)) (fs w)
                  (trace w ++ [EvCall root_gurl; EvSleep (delay config);
                               EvConnect (host root_gurl) (port root_gurl)
                                         (path root_gurl)])%list).
Proof.
  intros Hex Hs Hnet He.
  unfold crawl, mbind at 1, gopher_urls_from_menu_link, mbind at 1, emit at 1.
  unfold mbind at 1, retrieve_menu_content. cbn [fs clock trace].
  rewrite Hex. unfold download. rewrite download_loop_step by exact Hs.
  cbn [fs clock trace]. rewrite Hnet, He, (not_retried_not_caught e He).
  now rewrite <- app_assoc.
Qed.

(** The expansion of a menu that is not stored and whose server fails
    four times with errors [download] retries: four attempts, and an
    empty list. *)
Lemma expansion_unreachable (g : GopherURL) (w : world F) :
  exists_ E (fs w) (GopherURL.to_file_path g) && negb (clobber config)
  = false ->
  (forall i, (i <= 3)%nat -> sleep_ok (nth_delay (delay config) i) = true) ->
  (forall i, (i <= 3)%nat -> fails_retried E g w i) ->
  gopher_urls_from_menu_link E config root_gurl g w
  = Some (Ok [], after_expansion g (delay config) 4 [] w).
Proof.
  intros Hex Hs Hf.
  unfold gopher_urls_from_menu_link, mbind at 1, emit at 1.
  unfold mbind at 1, retrieve_menu_content. cbn [fs clock trace].
  rewrite Hex. unfold download.
  rewrite (download_loop_gives_up E g 3 4 0 (delay config)); try lia;
    try assumption.
  unfold mbind, ret, emit, after_expansion, after_attempts.
  cbn [fs clock trace]. now rewrite <- !app_assoc.
Qed.

(** X16. A root that cannot be reached costs eight attempts: [crawl]
    expands it before the loop and again as the only entry of the
    worklist, and returns the empty set. *)
Theorem crawl_unreachable_root (fuel : nat) (w : world F) :
  env_ok E ->
  (2 <= fuel)%nat ->
  depth_exceeded config 0 = false ->
  exists_ E (fs w) (GopherURL.to_file_path root_gurl)
  && negb (clobber config) = false ->
  (forall i, (i <= 3)%nat -> sleep_ok (nth_delay (delay config) i) = true) ->
  (forall i, (i < 8)%nat -> fails_retried E root_gurl w i) ->
  crawl E config root_gurl fuel w
  = Some (Ok [],
          after_expansion root_gurl (delay config) 4 []
            (after_expansion root_gurl (delay config) 4 [] w)).
Proof.
  intros HE Hfuel Hd Hex Hs Hf.
  assert (Hnil : forall n, iter_order E n [] = []).
  { intros n. apply Permutation_nil. apply Permutation_sym, HE. }
  destruct fuel as [|[|fuel]]; try lia.
  unfold crawl, mbind at 1.
  rewrite (expansion_unreachable root_gurl w Hex Hs);
    [|intros i Hi; apply Hf; lia].
  change (set_of E []) with (@nil GopherURL).
  rewrite Hnil. change (get_menus []) with (@nil GopherURL).
  change (set_of E []) with (@nil GopherURL). rewrite Hnil.
  rewrite crawl_loop_eq. cbn [app nth_error]. rewrite Hd. unfold mbind at 1.
  rewrite expansion_unreachable; [| exact Hex | exact Hs |].
  - change (set_of E []) with (@nil GopherURL).
    change (set_difference E [] []) with (@nil GopherURL).
    rewrite Hnil. change (get_menus []) with (@nil GopherURL).
    rewrite crawl_loop_eq. reflexivity.
  - intros i Hi. destruct (Hf (4 + i)%nat ltac:(lia)) as (e & Hn & Hr).
    exists e. split; [|exact Hr].
    unfold after_expansion. cbn [clock].
    now replace (clock w + 4 + i)%nat with (clock w + (4 + i))%nat by lia.
Qed.

End CrawlScope.

Lemma crawl_result_in_scope_witness :
  default_run
  = Some (Ok [sub_menu; some_file], default_final)
  /\ GopherURL.valid "/home/user" some_file = Ok true
  /\ host some_file = host root_menu.
Proof.
  split; [reflexivity|].
  destruct (crawl_result_in_scope
              (static_env site1) default_config root_menu 10 empty_world
              [sub_menu; some_file] default_final some_file)
    as (Hv & _ & _ & Hh & _); [reflexivity | simpl; auto |].
  split; [exact Hv | now apply Hh].
Defined.

Lemma crawl_keeps_store_witness : fs default_final = fs empty_world.
Proof.
  apply (crawl_keeps_store (static_env site1) default_config root_menu 10
           empty_world (Ok [sub_menu; some_file]) default_final).
  reflexivity.
Defined.

Lemma crawl_bounded_by_maxdepth_witness :
  exists added,
    trace depth0_final = (trace empty_world ++ added)%list
    /\ (List.length (calls added) <= 1 + Z.to_nat (0 + 1))%nat.
Proof.
  apply (crawl_bounded_by_maxdepth (static_env site1) depth0_config root_menu
           0%Z 10 empty_world (Ok [sub_menu; some_file]) depth0_final);
    [reflexivity | vm_compute; reflexivity].
Defined.

Lemma crawl_aborts_on_unretried_error_witness :
  crawl reset_env default_config root_menu 10 empty_world
  = Some (Raise OSError,
          mkWorld 1 []
                  [EvCall root_menu; EvSleep 0%Q;
                   EvConnect "example.org" 70%Z "/"]).
Proof.
  apply (crawl_aborts_on_unretried_error reset_env default_config root_menu
           OSError 10 empty_world); reflexivity.
Defined.

Lemma crawl_unreachable_root_witness :
  crawl (static_env []) default_config root_menu 2 empty_world
  = Some (Ok [],
          after_expansion root_menu 0%Q 4 []
            (after_expansion root_menu 0%Q 4 [] empty_world)).
Proof.
  apply (crawl_unreachable_root (static_env []) default_config root_menu
           2 empty_world).
  - apply static_env_ok.
  - lia.
  - reflexivity.
  - reflexivity.
  - intros i Hi.
    destruct i as [|[|[|[|i]]]]; try reflexivity; lia.
  - intros i Hi. exists GaiError. split; reflexivity.
Defined.

(* ================================================================= *)
(** ** The persistence step *)

Lemma fs_lookup_other (fs : filesystem) (k k' : list string) (v : node) :
  k' <> k -> fs_lookup ((k, v) :: fs) k' = fs_lookup fs k'.
Proof.
  intros Hne. destruct k' as [|c k']; [reflexivity|].
  unfold fs_lookup. cbn [assoc].
  destruct (list_eq_dec string_dec (c :: k') k); congruence.
Qed.

Lemma fs_lookup_same (fs : filesystem) (k : list string) (v : node) :
  k <> [] -> fs_lookup ((k, v) :: fs) k = Some v.
Proof.
  intros Hne. destruct k as [|c k]; [congruence|].
  unfold fs_lookup. cbn [assoc].
  destruct (list_eq_dec string_dec (c :: k) (c :: k)); congruence.
Qed.

Lemma fs_extends_refl (fs : filesystem) : fs_extends fs fs.
Proof. intros k. auto. Qed.

Lemma fs_extends_trans (a b c : filesystem) :
  fs_extends a b -> fs_extends b c -> fs_extends a c.
Proof.
  intros H1 H2 k. destruct (H1 k) as [D1 N1], (H2 k) as [D2 N2]. auto.
Qed.

Lemma fs_extends_add (fs : filesystem) (k : list string) (v : node) :
  k <> [] -> fs_lookup fs k <> Some Dir -> fs_extends fs ((k, v) :: fs).
Proof.
  intros Hne Hk k'.
  destruct (list_eq_dec string_dec k' k) as [->|Hd].
  - rewrite fs_lookup_same by exact Hne. split; [contradiction | discriminate].
  - rewrite fs_lookup_other by exact Hd. auto.
Qed.

Section Persistence.
Variable E : env.

Lemma mkdir_extends (fs fs' : filesystem) (p : string) :
  mkdir E fs p = Ok fs' -> fs_extends fs fs'.
Proof.
  unfold mkdir. destruct (resolve E fs p) as [k|]; [|discriminate].
  destruct (fs_lookup fs k) eqn:L; [discriminate|].
  intros H. injection H as <-. apply fs_extends_add.
  - intros ->. discriminate.
  - congruence.
Qed.

Lemma write_file_extends (fs fs' : filesystem) (p content : string) :
  write_file E fs p content = Ok fs' -> fs_extends fs fs'.
Proof.
  unfold write_file. destruct (resolve E fs p) as [k|]; [|discriminate].
  destruct (fs_lookup fs k) as [[c|]|] eqn:L; try discriminate;
    intros H; injection H as <-; apply fs_extends_add;
    try congruence; intros ->; discriminate.
Qed.

Lemma mkdirs_loop_extends (parts : list string) :
  forall st cd made st',
    mkdirs_loop E st cd parts = (made, st') -> fs_extends st st'.
Proof.
  induction parts as [|p parts IH]; intros st cd made st'; simpl.
  - intros H. injection H as _ <-. apply fs_extends_refl.
  - destruct (exists_ E st (PosixPath.join2 cd p)); simpl.
    + apply IH.
    + destruct (mkdir E st (PosixPath.join2 cd p)) as [fs1|e] eqn:M.
      * intros H. apply IH in H. apply mkdir_extends in M.
        eapply fs_extends_trans; eauto.
      * intros H. injection H as _ <-. apply fs_extends_refl.
Qed.

Lemma mkdirs_of_absolute (st : filesystem) (path : string) :
  path = "" \/ PosixPath.isabs path = true ->
  mkdirs E st path = (Raise OSError, st).
Proof.
  intros [-> | H]; [reflexivity|].
  destruct path as [|c path]; [reflexivity|].
  unfold PosixPath.isabs, PyStr.startswith, PosixPath.sep in H.
  rewrite prefix_cons in H.
  destruct (Ascii.eqb "/" c) eqn:Hc; [|discriminate].
  apply Ascii.eqb_eq in Hc. subst c. reflexivity.
Qed.

(** X17. [mkdirs] on an absolute path, or on the empty one, starts with
    [os.mkdir] of the empty string, which raises: nothing is created. *)
Theorem mkdirs_absolute_raises (st : filesystem) (path : string) :
  path = "" \/ PosixPath.isabs path = true ->
  mkdirs E st path = (Raise OSError, st).
Proof. apply mkdirs_of_absolute. Qed.

End Persistence.

(** A [mkdirs] that fails half-way leaves what it had made: the save
    of [detour_file] makes the directory [new] and then raises at the
    saved file, before any connection. *)
Example mkdirs_keeps_what_it_made :
  GopherURL.valid "/home/user" detour_file = Ok true
  /\ match write_gopherurl (static_env []) default_config detour_file None
                           archived_world with
     | Some (Raise OSError, w') =>
         fs_lookup (fs w') ["home"; "user"; "archive"; "example.org"; "new"]
         = Some Dir
         /\ clock w' = 0%nat
     | _ => False
     end
  /\ fs_lookup (fs archived_world)
               ["home"; "user"; "archive"; "example.org"; "new"] = None.
Proof. vm_compute. repeat split; reflexivity. Qed.

Section PersistenceReads.
Variable E : env.

(** Writing a file leaves the walk to it as it was. *)
Lemma walk_after_write (fs : filesystem) (k : list string) (v : node)
      (comps : list string) :
  fs_lookup fs k <> Some Dir ->
  forall cur, walk fs cur comps = Some k ->
              walk ((k, v) :: fs) cur comps = Some k.
Proof.
  intros Hk. induction comps as [|c comps IH]; intros cur; simpl;
    [auto|].
  destruct (fs_lookup fs cur) as [[content|]|] eqn:L; try discriminate.
  assert (Hne : cur <> k) by congruence.
  rewrite fs_lookup_other by exact Hne. rewrite L.
  destruct (String.eqb c "" || String.eqb c "."); [apply IH|].
  destruct (String.eqb c ".."); apply IH.
Qed.

Lemma slurp_after_write (st st' : filesystem) (p content : string) :
  write_file E st p content = Ok st' ->
  slurp E st' p = Ok content /\ exists_ E st' p = true.
Proof.
  unfold write_file, slurp, exists_, resolve.
  destruct (PyStr.is_empty p); [discriminate|].
  destruct (walk st _ (PyStr.split "/" p)) as [k|] eqn:W; [|discriminate].
  intros H.
  assert (Hk : fs_lookup st k <> Some Dir).
  { intros L. rewrite L in H. discriminate. }
  assert (Hst : st' = (k, File content) :: st).
  { destruct (fs_lookup st k) as [[c|]|]; congruence. }
  subst st'.
  rewrite (walk_after_write st k (File content) _ Hk _ W).
  rewrite fs_lookup_same; [auto|]. intros ->. now apply Hk.
Qed.

End PersistenceReads.

Section Saving.
Context {F : Type} {PF : PyFloat F}.
Variable E : env.
Variable config : Config F.

Lemma download_keeps_store (g : GopherURL) (d : F) (w : world F)
      (res : result (option string)) (w' : world F) :
  download E g d w = Some (res, w') -> fs w' = fs w.
Proof.
  intros H. apply download_loop_quiet in H. apply H.
Qed.

Lemma write_gopherurl_extends (gurl : GopherURL) (content : option string)
      (w : world F) (r : result unit) (w' : world F) :
  write_gopherurl E config gurl content w = Some (r, w') ->
  fs_extends (fs w) (fs w').
Proof.
  unfold write_gopherurl.
  destruct (exists_ E (fs w) _ && negb (clobber config)).
  { intros H. injection H as _ <-. apply fs_extends_refl. }
  destruct (mkdirs E (fs w) _) as [made fs1] eqn:Hm.
  apply mkdirs_loop_extends in Hm.
  destruct made as [u|e].
  2:{ intros H. injection H as _ <-. exact Hm. }
  unfold mbind.
  set (w1 := mkWorld (clock w) fs1 (trace w)).
  assert (Hgot : forall (c : option string) (w2 : world F),
             fs w2 = fs1 ->
             match c with
             | Some (String a rest) =>
                 match write_file E (fs w2)
                         (PosixPath.join (archive_directory config)
                            [GopherURL.to_file_path gurl]) (String a rest) with
                 | Ok fs3 => Some (Ok tt, mkWorld (clock w2) fs3 (trace w2))
                 | Raise e => Some (Raise e, w2)
                 end
             | _ => Some (Ok tt, w2)
             end = Some (r, w') ->
             fs_extends (fs w) (fs w')).
  { intros c w2 Hw2.
    assert (Hsame : Some (Ok tt, w2) = Some (r, w') ->
                    fs_extends (fs w) (fs w')).
    { intros H. injection H as _ <-. now rewrite Hw2. }
    destruct c as [[|a rest]|]; try exact Hsame.
    destruct (write_file E (fs w2) _ (String a rest)) as [fs3|e] eqn:Hw.
    - intros H. injection H as _ <-. simpl.
      apply write_file_extends in Hw. rewrite Hw2 in Hw.
      eapply fs_extends_trans; eauto.
    - intros H. injection H as _ <-. now rewrite Hw2. }
  destruct content as [c|].
  - unfold ret. apply (Hgot (Some c) w1). reflexivity.
  - destruct (download E gurl (delay config) w1) as [[[c|e] w2]|] eqn:D;
      [| |discriminate].
    + apply download_keeps_store in D. apply (Hgot c w2). exact D.
    + apply download_keeps_store in D.
      intros H. injection H as _ <-. now rewrite D.
Qed.

(** X18. A save that is not skipped and gets bytes from [download] stores
    them as they came: reading the storage path back gives them. *)
Theorem write_gopherurl_saves
        (gurl : GopherURL) (w : world F) (fs1 : filesystem)
        (c : ascii) (rest : string) (w2 w' : world F) :
  let outfile :=
    PosixPath.join (archive_directory config) [GopherURL.to_file_path gurl] in
  exists_ E (fs w) outfile && negb (clobber config) = false ->
  mkdirs E (fs w) (PosixPath.dirname outfile) = (Ok tt, fs1) ->
  download E gurl (delay config) (mkWorld (clock w) fs1 (trace w))
  = Some (Ok (Some (String c rest)), w2) ->
  write_gopherurl E config gurl None w = Some (Ok tt, w') ->
  slurp E (fs w') outfile = Ok (String c rest)
  /\ exists_ E (fs w') outfile = true
  /\ clock w' = clock w2 /\ trace w' = trace w2.
Proof.
  intros outfile Hex Hm D. unfold write_gopherurl. fold outfile.
  rewrite Hex, Hm. unfold mbind. rewrite D.
  destruct (write_file E (fs w2) outfile (String c rest)) as [fs3|e] eqn:Hw;
    [|discriminate].
  intros H. injection H as <-. simpl.
  apply slurp_after_write in Hw. tauto.
Qed.

(** X19. With an absolute archive directory ([-O /some/where]) a save that
    is not skipped raises on its first step, before any connection:
    [mkdirs] asks for the directory with the empty name. *)
Theorem write_gopherurl_absolute_archive
        (gurl : GopherURL) (content : option string) (w : world F) :
  let outfile :=
    PosixPath.join (archive_directory config) [GopherURL.to_file_path gurl] in
  PosixPath.isabs (PosixPath.dirname outfile) = true ->
  exists_ E (fs w) outfile && negb (clobber config) = false ->
  write_gopherurl E config gurl content w = Some (Raise OSError, w).
Proof.
  intros outfile Habs Hex. unfold write_gopherurl. fold outfile.
  rewrite Hex, mkdirs_of_absolute; [now destruct w | now right].
Qed.

(** X20. Over an archive that already holds every resource of the list,
    and without [-c], [download_gopher_urls] connects nowhere and
    changes nothing. *)
Theorem download_gopher_urls_complete_archive
        (gopher_urls : list GopherURL) (w : world F) :
  clobber config = false ->
  (forall g, In g gopher_urls ->
             exists_ E (fs w)
               (PosixPath.join (archive_directory config)
                               [GopherURL.to_file_path g]) = true) ->
  download_gopher_urls E config gopher_urls w = Some (Ok tt, w).
Proof.
  intros Hc. induction gopher_urls as [|g l IH]; intros Hall; [reflexivity|].
  simpl. unfold mbind, write_gopherurl.
  rewrite (Hall g (or_introl eq_refl)), Hc. simpl.
  apply IH. intros g' Hg'. apply Hall. now right.
Qed.

Lemma download_gopher_urls_extends (gopher_urls : list GopherURL) :
  forall w r w',
    download_gopher_urls E config gopher_urls w = Some (r, w') ->
    fs_extends (fs w) (fs w').
Proof.
  induction gopher_urls as [|g l IH]; intros w r w'; simpl.
  - unfold ret. intros H. injection H as _ <-. apply fs_extends_refl.
  - unfold mbind.
    destruct (write_gopherurl E config g None w) as [[[u|e] w1]|] eqn:W;
      [| |discriminate].
    + apply write_gopherurl_extends in W. intros H. apply IH in H.
      eapply fs_extends_trans; eauto.
    + apply write_gopherurl_extends in W.
      intros H. injection H as _ <-. exact W.
Qed.

Lemma guarded_download_extends (gopher_urls : list GopherURL) (w : world F)
      (r : result unit) (w' : world F) :
  (if (0 <? List.length gopher_urls)%nat
   then download_gopher_urls E config gopher_urls else ret tt) w
  = Some (r, w') ->
  fs_extends (fs w) (fs w').
Proof.
  destruct (0 <? List.length gopher_urls)%nat;
    [apply download_gopher_urls_extends|].
  unfold ret. intros H. injection H as _ <-. apply fs_extends_refl.
Qed.

Variable urlsplit : string -> result SplitResult.
Variable final_order : list GopherURL -> list GopherURL.

Lemma gopherdl_extends (fuel : nat) (host : string) (w : world F)
      (r : result unit) (w' : world F) :
  gopherdl E config urlsplit final_order fuel host w = Some (r, w') ->
  fs_extends (fs w) (fs w').
Proof.
  unfold gopherdl, mbind at 1, lift at 1.
  destruct (spliturl urlsplit host) as [[[h p] sel]|e].
  2:{ intros H. injection H as _ <-. apply fs_extends_refl. }
  unfold mbind at 1, lift at 1.
  destruct (probably_a_menu sel) as [menu|e].
  2:{ intros H. injection H as _ <-. apply fs_extends_refl. }
  destruct (recursive config); [|apply write_gopherurl_extends].
  unfold mbind at 1.
  destruct (crawl E config _ fuel w) as [[[gurls|e] w1]|] eqn:C;
    [| |discriminate].
  - apply (crawl_keeps E config _ (fun _ => True)
             (fun _ _ _ _ _ _ _ => I)) in C.
    destruct C as [C _]. rewrite <- C. unfold mbind.
    match goal with
    | |- match ?m w1 with _ => _ end = _ -> _ =>
        destruct (m w1) as [[[u|e] w2]|] eqn:M1; [| |discriminate]
    end.
    + apply guarded_download_extends in M1.
      intros H. apply guarded_download_extends in H.
      eapply fs_extends_trans; eauto.
    + apply guarded_download_extends in M1.
      intros H. injection H as _ <-. exact M1.
  - apply (crawl_keeps E config _ (fun _ => True)
             (fun _ _ _ _ _ _ _ => I)) in C.
    destruct C as [C _]. intros H. injection H as _ <-. rewrite C.
    apply fs_extends_refl.
Qed.

(** X21. A run of [gopherdl] removes nothing from the store and never puts
    a file where a directory was: every entry is still there at the
    end, every directory still a directory. *)
Theorem gopherdl_never_removes
        (fuel : nat) (host : string) (w : world F)
        (r : result unit) (w' : world F) (k : list string) :
  gopherdl E config urlsplit final_order fuel host w = Some (r, w') ->
  fs_lookup (fs w) k <> None ->
  fs_lookup (fs w') k <> None
  /\ (fs_lookup (fs w) k = Some Dir -> fs_lookup (fs w') k = Some Dir).
Proof.
  intros H Hk. apply gopherdl_extends in H. destruct (H k) as [D N]. auto.
Qed.

(** X22. With both [-m] and [-n] a recursive run crawls and then stores
    nothing. *)
Theorem gopherdl_only_and_never_menus
        (fuel : nat) (host : string) (w : world F)
        (r : result unit) (w' : world F) :
  recursive config = true ->
  only_save_menu config = true ->
  no_save_menu config = true ->
  gopherdl E config urlsplit final_order fuel host w = Some (r, w') ->
  fs w' = fs w.
Proof.
  intros Hr Hm Hn. unfold gopherdl, mbind at 1, lift at 1.
  destruct (spliturl urlsplit host) as [[[h p] sel]|e].
  2:{ intros H. now injection H as _ <-. }
  unfold mbind at 1, lift at 1.
  destruct (probably_a_menu sel) as [menu|e].
  2:{ intros H. now injection H as _ <-. }
  rewrite Hr, Hm, Hn. unfold mbind at 1.
  destruct (crawl E config _ fuel w) as [[[gurls|e] w1]|] eqn:C;
    [| |discriminate];
    apply (crawl_keeps E config _ (fun _ => True)
             (fun _ _ _ _ _ _ _ => I)) in C; destruct C as [C _].
  - simpl. unfold mbind, ret. intros H. now injection H as _ <-.
  - intros H. now injection H as _ <-.
Qed.

(** X23. An address with another scheme is passed over by [main] without a
    connection or a file touched: the hosts are processed as if it
    were not among them. *)
Theorem main_skips_foreign_schemes (fuel : nat) (hosts : list string)
        (w : world F) :
  main_hosts E config urlsplit final_order fuel hosts w
  = main_hosts E config urlsplit final_order fuel
      (filter (fun h => negb (foreign_scheme h)) hosts) w.
Proof.
  revert w. induction hosts as [|h hosts IH]; intros w; [reflexivity|].
  simpl. destruct (foreign_scheme h) eqn:Hf; simpl.
  - unfold gopherdl, mbind at 1, lift at 1, spliturl.
    unfold foreign_scheme in Hf. rewrite Hf. apply IH.
  - destruct (gopherdl E config urlsplit final_order fuel h w)
      as [[[u|e] w1]|]; [apply IH | | reflexivity].
    destruct e; try reflexivity. apply IH.
Qed.

End Saving.

Lemma write_gopherurl_saves_witness :
  write_gopherurl (static_env [("example.org", "/file.txt", "new")])
    (mkConfig true None false true false false false 0%Q None None false
              "./archive/")
    archived_file None archived_world
  = Some (Ok tt,
          mkWorld 1
            ((["home"; "user"; "archive"; "example.org"; "file.txt"],
              File "new") :: fs archived_world)
            [EvSleep 0%Q; EvConnect "example.org" 70%Z "/file.txt"])
  /\ slurp (static_env [("example.org", "/file.txt", "new")])
       ((["home"; "user"; "archive"; "example.org"; "file.txt"],
         File "new") :: fs archived_world)
       "./archive/example.org/file.txt"
     = Ok "new".
Proof.
  split; [vm_compute; reflexivity|].
  apply (write_gopherurl_saves
           (static_env [("example.org", "/file.txt", "new")])
           (mkConfig true None false true false false false 0%Q None None
                     false "./archive/")
           archived_file archived_world (fs archived_world) "n" "ew"
           (mkWorld 1 (fs archived_world)
              [EvSleep 0%Q; EvConnect "example.org" 70%Z "/file.txt"])
           (mkWorld 1
              ((["home"; "user"; "archive"; "example.org"; "file.txt"],
                File "new") :: fs archived_world)
              [EvSleep 0%Q; EvConnect "example.org" 70%Z "/file.txt"]));
    vm_compute; reflexivity.
Defined.

Lemma write_gopherurl_absolute_archive_witness :
  write_gopherurl (static_env [])
    (mkConfig true None false false false false false 0%Q None None false
              "/srv/archive")
    archived_file None archived_world
  = Some (Raise OSError, archived_world).
Proof.
  apply (write_gopherurl_absolute_archive (static_env [])
           (mkConfig true None false false false false false 0%Q None None
                     false "/srv/archive")
           archived_file None archived_world); vm_compute; reflexivity.
Defined.

Lemma mkdirs_absolute_raises_witness :
  mkdirs (static_env []) (fs archived_world) "/srv/archive/example.org"
  = (Raise OSError, fs archived_world).
Proof.
  apply (mkdirs_absolute_raises (static_env []) (fs archived_world)
           "/srv/archive/example.org").
  right. reflexivity.
Defined.

Lemma download_gopher_urls_complete_archive_witness :
  download_gopher_urls (static_env []) default_config [archived_file]
                       archived_world
  = Some (Ok tt, archived_world).
Proof.
  apply (download_gopher_urls_complete_archive (static_env [])
           default_config [archived_file] archived_world);
    [reflexivity|].
  intros g [<- | []]. vm_compute. reflexivity.
Defined.

Lemma gopherdl_never_removes_witness :
  fs_lookup (fs saved_final)
            ["home"; "user"; "archive"; "example.org"; "file.txt"] <> None
  /\ fs_lookup (fs saved_final) ["home"; "user"; "archive"] = Some Dir.
Proof.
  destruct (gopherdl_never_removes (static_env site1) default_config
              urlsplit_host (fun l => l) 10 "example.org" archived_world
              (Ok tt) saved_final ["home"; "user"; "archive"])
    as [_ Hd]; [vm_compute; reflexivity | discriminate |].
  destruct (gopherdl_never_removes (static_env site1) default_config
              urlsplit_host (fun l => l) 10 "example.org" archived_world
              (Ok tt) saved_final
              ["home"; "user"; "archive"; "example.org"; "file.txt"])
    as [Hn _]; [vm_compute; reflexivity | discriminate |].
  split; [exact Hn | now apply Hd].
Defined.

Lemma gopherdl_only_and_never_menus_witness :
  (6 <= List.length (trace unsaved_final))%nat
  /\ fs unsaved_final = fs archived_world.
Proof.
  split; [vm_compute; lia|].
  apply (gopherdl_only_and_never_menus (static_env site1) both_flags_config
           urlsplit_host (fun l => l) 10 "example.org" archived_world
           (Ok tt) unsaved_final); vm_compute; reflexivity.
Defined.

(* ================================================================= *)
(** ** The URL that the regular expressions see *)

(** X24. [to_url] reads the host and the selector only: resources equal by
    [__eq__] have the same URL, and so fare alike with [-A] and [-R]
    whatever their type and port. *)
Theorem to_url_of_equal {F : Type} (config : Config F) (a b : GopherURL) :
  GopherURL.__eq__ a b = true ->
  GopherURL.to_url a = GopherURL.to_url b
  /\ passes_regexes config a = passes_regexes config b.
Proof.
  intros H. apply eq_iff_host_path in H as [Hh Hp].
  assert (Hu : GopherURL.to_url a = GopherURL.to_url b).
  { unfold GopherURL.to_url. now rewrite Hh, Hp. }
  split; [exact Hu|]. unfold passes_regexes. now rewrite Hu.
Qed.

Lemma to_url_of_equal_witness :
  GopherURL.to_url sub_menu = GopherURL.to_url sub_file.
Proof.
  apply (to_url_of_equal default_config sub_menu sub_file). reflexivity.
Defined.

Lemma substring_0_0 (s : string) : substring 0 0 s = "".
Proof. now destruct s. Qed.

(** X25. The first [?] of a selector is not in the URL: what follows it is
    put in the parameter slot, after a [;], and a trailing [?] is
    dropped. *)
Theorem to_url_query_separator (g : GopherURL) (a b : string) :
  host g <> "" ->
  PyStr.startswith a "/" = true ->
  has_char "?" a = false ->
  path g = a ++ String "?" b ->
  GopherURL.to_url g
  = "gopher://" ++ host g ++ a ++ (if PyStr.is_empty b then "" else ";" ++ b).
Proof.
  intros Hh Ha Hq Hp. unfold GopherURL.to_url.
  rewrite Hp, (split_append_sep "?" a b Hq).
  pose proof (join_split "?" b) as Hj.
  destruct (PyStr.split "?" b) as [|x rest] eqn:Hs;
    [now apply split_not_nil in Hs|].
  rewrite Hj.
  destruct a as [|c a]; [discriminate|].
  unfold PyStr.startswith in Ha. rewrite prefix_cons in Ha.
  destruct (Ascii.eqb "/" c) eqn:Hc; [|discriminate].
  apply Ascii.eqb_eq in Hc. subst c.
  destruct (host g) as [|h0 hs] eqn:Hhost; [congruence|].
  destruct b as [|b0 bs]; simpl; rewrite substring_0_0; simpl.
  - now rewrite str_app_nil_r.
  - reflexivity.
Qed.

Lemma to_url_query_separator_witness :
  GopherURL.to_url query_file = "gopher://example.org/cgi;q=1".
Proof.
  apply (to_url_query_separator query_file "/cgi" "q=1");
    [discriminate | reflexivity | reflexivity | reflexivity].
Defined.
